(** * Contact Center Insights: transcript fusion and schema validation

    A shallow embedding of the notebook
    [contact_center_insights_for_nvidia.ipynb]: the pydantic data model
    (Utterance, Transcript, Entities, the metric classes, Evaluation,
    Result), the nested function [extract_transcript], the function
    [combine_and_format_results], the construction of the Transcript
    and the JSON text of the Result that the last cell writes, followed
    by the properties of the specification that concern them. *)

From Stdlib Require Import ZArith NArith Ascii String QArith_base Lia.
From Stdlib Require Import DecimalString DecimalPos DecimalZ.
From stdpp Require Import base list sorting gmap.

Local Open Scope Z_scope.

(** ** Python text

    A Python [str] is a sequence of Unicode code points. *)

Definition str : Type := list N.

(** The text of an ASCII literal of the source. *)
Definition py (s : string) : str :=
  map N_of_ascii (list_ascii_of_string s).

Fixpoint str_eqb (s t : str) : bool :=
  match s, t with
  | [], [] => true
  | c :: s', d :: t' => N.eqb c d && str_eqb s' t'
  | _, _ => false
  end.

(** [str.isspace] for one code point: the table of CPython's
    [_PyUnicode_IsWhitespace]. *)
Definition is_space (c : N) : bool :=
  ((9 <=? c) && (c <=? 13) || (28 <=? c) && (c <=? 32)
   || (c =? 133) || (c =? 160) || (c =? 5760)
   || (8192 <=? c) && (c <=? 8202)
   || (c =? 8232) || (c =? 8233) || (c =? 8239) || (c =? 8287)
   || (c =? 12288))%N.

Fixpoint lstrip (s : str) : str :=
  match s with
  | [] => []
  | c :: s' => if is_space c then lstrip s' else s
  end.

Definition rstrip (s : str) : str := rev (lstrip (rev s)).

(** [s.strip()] with no argument. *)
Definition strip (s : str) : str := rstrip (lstrip s).

(** ** Exceptions

    The only exception raised by the transcript code itself is the
    [IndexError] of [alternative.words[0]] on an empty word list. *)

Inductive exn : Type :=
| IndexError.

Inductive exc (A : Type) : Type :=
| Return (a : A)
| Raise (e : exn).
Arguments Return {A} a.
Arguments Raise {A} e.

Definition exc_bind {A B} (m : exc A) (k : A -> exc B) : exc B :=
  match m with
  | Return a => k a
  | Raise e => Raise e
  end.

Notation "x <- m ;; k" := (exc_bind m (fun x => k))
  (at level 100, m at next level, right associativity).

(** ** Recognition results (the fields of the Riva messages the notebook
    reads)

    [start_time] is an [int32] field of the protobuf message, a
    millisecond offset. *)

Module WordInfo.
Record t : Type := Build { start_time : Z }.
End WordInfo.

Module Alternative.
Record t : Type := Build { transcript : str; words : list WordInfo.t }.
End Alternative.

Module SpeechRecognitionResult.
Record t : Type := Build { alternatives : list Alternative.t }.
End SpeechRecognitionResult.

Definition in_int32 (z : Z) : Prop := - 2 ^ 31 <= z < 2 ^ 31.

Definition int32_results (results : list SpeechRecognitionResult.t) : Prop :=
  Forall (fun r =>
    Forall (fun a =>
      Forall (fun w => in_int32 (WordInfo.start_time w)) (Alternative.words a))
      (SpeechRecognitionResult.alternatives r)) results.

(** ** The data model of the transcript *)

Module Utterance.
Record t : Type := Build { time : Z; speaker : Z; spoken_words : str }.
End Utterance.

Module Transcript.
Record t : Type := Build { utterances : list Utterance.t; call_duration : Z }.
End Transcript.

(** The dictionaries appended by [extract_transcript], with the keys
    ['transcript'], ['start_time'] and ['speaker']. *)
Module Entry.
Record t : Type := Build { transcript : str; start_time : Z; speaker : Z }.
End Entry.

(** ** [extract_transcript]

    <<
    transcript_results = []
    for result in results:
        for alternative in result.alternatives:
            transcript_results.append({
                'transcript': alternative.transcript,
                'start_time': alternative.words[0].start_time,
                'speaker': speaker_label })
    return transcript_results
    >> *)

(** [alternative.words[0].start_time] *)
Definition first_word_start_time (alternative : Alternative.t) : exc Z :=
  match Alternative.words alternative with
  | [] => Raise IndexError
  | w :: _ => Return (WordInfo.start_time w)
  end.

(** The inner loop, threading the list built so far. *)
Fixpoint extract_alternatives (alternatives : list Alternative.t)
    (speaker_label : Z) (transcript_results : list Entry.t)
    : exc (list Entry.t) :=
  match alternatives with
  | [] => Return transcript_results
  | alternative :: rest =>
      st <- first_word_start_time alternative ;;
      extract_alternatives rest speaker_label
        (transcript_results ++
           [Entry.Build (Alternative.transcript alternative) st speaker_label])
  end.

(** The outer loop. *)
Fixpoint extract_results (results : list SpeechRecognitionResult.t)
    (speaker_label : Z) (transcript_results : list Entry.t)
    : exc (list Entry.t) :=
  match results with
  | [] => Return transcript_results
  | result :: rest =>
      acc <- extract_alternatives
               (SpeechRecognitionResult.alternatives result)
               speaker_label transcript_results ;;
      extract_results rest speaker_label acc
  end.

Definition extract_transcript (results : list SpeechRecognitionResult.t)
    (speaker_label : Z) : exc (list Entry.t) :=
  extract_results results speaker_label [].

(** The alternatives the two loops visit, in the order of the visit. *)
Fixpoint all_alternatives (results : list SpeechRecognitionResult.t)
    : list Alternative.t :=
  match results with
  | [] => []
  | result :: rest =>
      SpeechRecognitionResult.alternatives result ++ all_alternatives rest
  end.

(** The dictionary appended for one alternative. *)
Definition entry_of (speaker_label : Z) (alternative : Alternative.t)
    (e : Entry.t) : Prop :=
  exists w ws,
    Alternative.words alternative = w :: ws /\
    e = Entry.Build (Alternative.transcript alternative)
          (WordInfo.start_time w) speaker_label.

Definition int32_entries (l : list Entry.t) : Prop :=
  Forall (fun e => in_int32 (Entry.start_time e)) l.

(** ** [list.sort(key=...)]

    Python's sort is stable and compares keys with [<]; the result of a
    stable sort is determined by its input (lemma [sort_by_unique]
    below), so it is modelled by stable insertion from the right. *)

Section SortBy.
Context {A : Type} (key : A -> Z).

Fixpoint insert_by (x : A) (l : list A) : list A :=
  match l with
  | [] => [x]
  | y :: l' => if key y <? key x then y :: insert_by x l' else x :: y :: l'
  end.

Fixpoint sort_by (l : list A) : list A :=
  match l with
  | [] => []
  | x :: l' => insert_by x (sort_by l')
  end.

(** The order the sort establishes. *)
Definition key_le (a b : A) : Prop := key a <= key b.
End SortBy.

(** ** [float(result['start_time'])] and the [time: int] field

    A binary64 float has 53 significant bits.  [round_half_even s a] is
    the multiple of [2^s] nearest to [a >= 0], the even multiple on a
    tie. *)
Definition round_half_even (s a : Z) : Z :=
  let q := Z.shiftr a s in
  let r := a - Z.shiftl q s in
  let half := Z.shiftl 1 (s - 1) in
  Z.shiftl (if r <? half then q
            else if half <? r then q + 1
            else if Z.even q then q else q + 1) s.

(** [float_of_int z] is the binary64 value nearest to the integer [z]
    (ties to even), written as the integer it denotes: the float of an
    integer is always integral.  Python raises [OverflowError] for an
    integer beyond the range of binary64, far above the millisecond
    offsets of a recording. *)
Definition float_of_int (z : Z) : Z :=
  let a := Z.abs z in
  let n := Z.log2 a in
  if n <? 53 then z
  else Z.sgn z * round_half_even (n - 52) a.

(** pydantic's lax validation of a float for an [int] field: a float
    without fractional part, within the 64-bit integers, is accepted as
    the integer it denotes.  The float of an integer has no fractional
    part, and an [int32] offset is returned as it is (lemma
    [float_of_int32]). *)
Definition int_of_integral_float (f : Z) : Z := f.

(** [Utterance(time=float(result['start_time']),
               speaker=result['speaker'],
               spoken_words=result['transcript'].strip())] *)
Definition to_utterance (result : Entry.t) : Utterance.t :=
  Utterance.Build
    (int_of_integral_float (float_of_int (Entry.start_time result)))
    (Entry.speaker result)
    (strip (Entry.transcript result)).

(** The body of [combine_and_format_results] after the two extractions:
    <<
    combined_results = left_results + right_results
    combined_results.sort(key=lambda x: x['start_time'])
    utterances = []
    for result in combined_results: ... utterances.append(utt)
    >> *)
Definition combined_results (left_results right_results : list Entry.t)
    : list Entry.t :=
  sort_by Entry.start_time (left_results ++ right_results).

Definition format_results (left_results right_results : list Entry.t)
    : list Utterance.t :=
  to_utterance <$> combined_results left_results right_results.

Definition combine_and_format_results
    (left_results right_results : list SpeechRecognitionResult.t)
    : exc (list Utterance.t) :=
  l <- extract_transcript left_results 0 ;;
  r <- extract_transcript right_results 1 ;;
  Return (format_results l r).

(** <<
    utterances = combine_and_format_results(left_results, right_results)
    transcript = Transcript(utterances=utterances, call_duration=duration)
    >>
    [duration] is [len(audio)], supplied independently of the
    recognition results. *)
Definition build_transcript
    (left_results right_results : list SpeechRecognitionResult.t)
    (duration : Z) : exc Transcript.t :=
  utterances <- combine_and_format_results left_results right_results ;;
  Return (Transcript.Build utterances duration).

(** ** JSON documents

    The values [json.loads] yields and [model_dump_json] prints.  An
    object keeps its members in order; a repeated key is resolved as
    [json.loads] does, the last member winning. *)

Local Unset Elimination Schemes.
Inductive json : Type :=
| JNull
| JBool (b : bool)
| JInt (z : Z)
| JFloat (q : Q)
| JStr (s : str)
| JArr (items : list json)
| JObj (members : list (str * json)).
Local Set Elimination Schemes.

Fixpoint dict_get (k : str) (members : list (str * json)) : option json :=
  match members with
  | [] => None
  | (k', v) :: rest =>
      match dict_get k rest with
      | Some v' => Some v'
      | None => if str_eqb k k' then Some v else None
      end
  end.

(** ** pydantic validation

    The notebook uses pydantic 2 ([model_dump_json]): a field declared
    without a default is required, also when its type is [Optional].  A
    [ValidationError] carries one line per failing location. *)

Inductive loc_item : Type :=
| Field (name : str)
| Index (i : nat).

Inductive error_type : Type :=
| Missing        (* a required field is absent *)
| IntError       (* not an integer and not coercible to one *)
| StringType     (* not a string *)
| ModelType      (* not an object where a model is expected *)
| ListType.      (* not an array where a list is expected *)

Definition line_error : Type := list loc_item * error_type.

Inductive validated (A : Type) : Type :=
| Valid (a : A)
| Invalid (errors : list line_error).
Arguments Valid {A} a.
Arguments Invalid {A} errors.

(** [reports r e]: validation failed and [e] is one of the reported
    errors. *)
Definition reports {A} (r : validated A) (e : line_error) : Prop :=
  match r with
  | Valid _ => False
  | Invalid errors => e ∈ errors
  end.

(** The errors of a nested value are reported under its location. *)
Definition at_loc {A} (item : loc_item) (r : validated A) : validated A :=
  match r with
  | Valid a => Valid a
  | Invalid errors =>
      Invalid ((fun e : line_error => (item :: fst e, snd e)) <$> errors)
  end.

Definition vmap {A B} (f : A -> B) (r : validated A) : validated B :=
  match r with
  | Valid a => Valid (f a)
  | Invalid errors => Invalid errors
  end.

(** Every field is validated; the errors of all of them are collected. *)
Definition vap {A B} (f : validated (A -> B)) (x : validated A)
    : validated B :=
  match f, x with
  | Valid f', Valid a => Valid (f' a)
  | Valid _, Invalid e => Invalid e
  | Invalid e, Valid _ => Invalid e
  | Invalid e1, Invalid e2 => Invalid (e1 ++ e2)
  end.

Infix "<*>" := vap (at level 50, left associativity).

(** ** The models *)

Module Entities.
Record t : Type := Build {
  agent_name : option str;
  customer_name : option str;
  agent_speaker : Z;
  customer_speaker : Z;
  reason : option str;
  topic : str;
  subtopic : str }.
End Entities.

Module ScoreMetric.
Record t : Type := Build { value : Z; justification : str }.
End ScoreMetric.

Module BoolMetric.
Record t : Type := Build { value : Z; justification : str }.
End BoolMetric.

Module StringMetric.
Record t : Type := Build { value : str; justification : str }.
End StringMetric.

Module Evaluation.
Record t : Type := Build {
  greeting : BoolMetric.t;
  hold : BoolMetric.t;
  ticket : BoolMetric.t;
  listening : BoolMetric.t;
  understanding : BoolMetric.t;
  tone : BoolMetric.t;
  proactivity : BoolMetric.t;
  clarity : BoolMetric.t;
  resolved : BoolMetric.t;
  customer_sentiment : ScoreMetric.t;
  escalation : BoolMetric.t;
  agent_feedback : StringMetric.t;
  escalation_reason : StringMetric.t }.
End Evaluation.

Module Result.
Record t : Type := Build {
  transcript : Transcript.t;
  entities : Entities.t;
  evaluation : Evaluation.t }.
End Result.

(** The names of the fields of [Evaluation], in declaration order. *)
Definition Evaluation_fields : list str :=
  [py "greeting"; py "hold"; py "ticket"; py "listening";
   py "understanding"; py "tone"; py "proactivity"; py "clarity";
   py "resolved"; py "customer_sentiment"; py "escalation";
   py "agent_feedback"; py "escalation_reason"].

Section Validation.
(** pydantic validates in lax mode: for an [int] field an input that is
    not an integer (a boolean, a numeric string, an integral float) may
    still be coerced.  The coercion is a parameter: nothing below
    depends on which inputs it accepts. *)
Variable lax_int : json -> option Z.

Definition validate_int (v : json) : validated Z :=
  match v with
  | JInt z => Valid z
  | _ => match lax_int v with
         | Some z => Valid z
         | None => Invalid [([], IntError)]
         end
  end.

Definition validate_str (v : json) : validated str :=
  match v with
  | JStr s => Valid s
  | _ => Invalid [([], StringType)]
  end.

(** [Optional[str]] *)
Definition validate_optional_str (v : json) : validated (option str) :=
  match v with
  | JNull => Valid None
  | _ => vmap Some (validate_str v)
  end.

(** A field declared without a default is required. *)
Definition field {A} (validate : json -> validated A) (name : str)
    (members : list (str * json)) : validated A :=
  match dict_get name members with
  | None => Invalid [([Field name], Missing)]
  | Some v => at_loc (Field name) (validate v)
  end.

Fixpoint validate_items {A} (validate : json -> validated A) (i : nat)
    (items : list json) : validated (list A) :=
  match items with
  | [] => Valid []
  | v :: rest =>
      Valid cons <*> at_loc (Index i) (validate v)
                 <*> validate_items validate (S i) rest
  end.

(** [List[...]] *)
Definition validate_list {A} (validate : json -> validated A) (v : json)
    : validated (list A) :=
  match v with
  | JArr items => validate_items validate 0%nat items
  | _ => Invalid [([], ListType)]
  end.

Definition validate_model {A} (fields : list (str * json) -> validated A)
    (v : json) : validated A :=
  match v with
  | JObj members => fields members
  | _ => Invalid [([], ModelType)]
  end.

Definition validate_Utterance : json -> validated Utterance.t :=
  validate_model (fun m =>
    Valid Utterance.Build
      <*> field validate_int (py "time") m
      <*> field validate_int (py "speaker") m
      <*> field validate_str (py "spoken_words") m).

Definition validate_Transcript : json -> validated Transcript.t :=
  validate_model (fun m =>
    Valid Transcript.Build
      <*> field (validate_list validate_Utterance) (py "utterances") m
      <*> field validate_int (py "call_duration") m).

Definition validate_Entities : json -> validated Entities.t :=
  validate_model (fun m =>
    Valid Entities.Build
      <*> field validate_optional_str (py "agent_name") m
      <*> field validate_optional_str (py "customer_name") m
      <*> field validate_int (py "agent_speaker") m
      <*> field validate_int (py "customer_speaker") m
      <*> field validate_optional_str (py "reason") m
      <*> field validate_str (py "topic") m
      <*> field validate_str (py "subtopic") m).

Definition validate_ScoreMetric : json -> validated ScoreMetric.t :=
  validate_model (fun m =>
    Valid ScoreMetric.Build
      <*> field validate_int (py "value") m
      <*> field validate_str (py "justification") m).

Definition validate_BoolMetric : json -> validated BoolMetric.t :=
  validate_model (fun m =>
    Valid BoolMetric.Build
      <*> field validate_int (py "value") m
      <*> field validate_str (py "justification") m).

Definition validate_StringMetric : json -> validated StringMetric.t :=
  validate_model (fun m =>
    Valid StringMetric.Build
      <*> field validate_str (py "value") m
      <*> field validate_str (py "justification") m).

Definition validate_Evaluation : json -> validated Evaluation.t :=
  validate_model (fun m =>
    Valid Evaluation.Build
      <*> field validate_BoolMetric (py "greeting") m
      <*> field validate_BoolMetric (py "hold") m
      <*> field validate_BoolMetric (py "ticket") m
      <*> field validate_BoolMetric (py "listening") m
      <*> field validate_BoolMetric (py "understanding") m
      <*> field validate_BoolMetric (py "tone") m
      <*> field validate_BoolMetric (py "proactivity") m
      <*> field validate_BoolMetric (py "clarity") m
      <*> field validate_BoolMetric (py "resolved") m
      <*> field validate_ScoreMetric (py "customer_sentiment") m
      <*> field validate_BoolMetric (py "escalation") m
      <*> field validate_StringMetric (py "agent_feedback") m
      <*> field validate_StringMetric (py "escalation_reason") m).

Definition validate_Result : json -> validated Result.t :=
  validate_model (fun m =>
    Valid Result.Build
      <*> field validate_Transcript (py "transcript") m
      <*> field validate_Entities (py "entities") m
      <*> field validate_Evaluation (py "evaluation") m).
End Validation.

(** ** The JSON document of a model ([model_dump] in JSON mode)

    The fields in declaration order, an [int] as a JSON integer, [None]
    as [null], a [str] as it is.  The document is what validation
    takes and what [model_dump_json] prints; every model has one,
    whereas [model_dump_json], defined further down, can fail to print
    it. *)

Definition dump_optional_str (o : option str) : json :=
  match o with
  | None => JNull
  | Some s => JStr s
  end.

Definition dump_Utterance (u : Utterance.t) : json :=
  JObj [(py "time", JInt (Utterance.time u));
        (py "speaker", JInt (Utterance.speaker u));
        (py "spoken_words", JStr (Utterance.spoken_words u))].

Definition dump_Transcript (t : Transcript.t) : json :=
  JObj [(py "utterances", JArr (dump_Utterance <$> Transcript.utterances t));
        (py "call_duration", JInt (Transcript.call_duration t))].

Definition dump_Entities (e : Entities.t) : json :=
  JObj [(py "agent_name", dump_optional_str (Entities.agent_name e));
        (py "customer_name", dump_optional_str (Entities.customer_name e));
        (py "agent_speaker", JInt (Entities.agent_speaker e));
        (py "customer_speaker", JInt (Entities.customer_speaker e));
        (py "reason", dump_optional_str (Entities.reason e));
        (py "topic", JStr (Entities.topic e));
        (py "subtopic", JStr (Entities.subtopic e))].

Definition dump_ScoreMetric (m : ScoreMetric.t) : json :=
  JObj [(py "value", JInt (ScoreMetric.value m));
        (py "justification", JStr (ScoreMetric.justification m))].

Definition dump_BoolMetric (m : BoolMetric.t) : json :=
  JObj [(py "value", JInt (BoolMetric.value m));
        (py "justification", JStr (BoolMetric.justification m))].

Definition dump_StringMetric (m : StringMetric.t) : json :=
  JObj [(py "value", JStr (StringMetric.value m));
        (py "justification", JStr (StringMetric.justification m))].

Definition dump_Evaluation (e : Evaluation.t) : json :=
  JObj [(py "greeting", dump_BoolMetric (Evaluation.greeting e));
        (py "hold", dump_BoolMetric (Evaluation.hold e));
        (py "ticket", dump_BoolMetric (Evaluation.ticket e));
        (py "listening", dump_BoolMetric (Evaluation.listening e));
        (py "understanding", dump_BoolMetric (Evaluation.understanding e));
        (py "tone", dump_BoolMetric (Evaluation.tone e));
        (py "proactivity", dump_BoolMetric (Evaluation.proactivity e));
        (py "clarity", dump_BoolMetric (Evaluation.clarity e));
        (py "resolved", dump_BoolMetric (Evaluation.resolved e));
        (py "customer_sentiment",
           dump_ScoreMetric (Evaluation.customer_sentiment e));
        (py "escalation", dump_BoolMetric (Evaluation.escalation e));
        (py "agent_feedback", dump_StringMetric (Evaluation.agent_feedback e));
        (py "escalation_reason",
           dump_StringMetric (Evaluation.escalation_reason e))].

Definition dump_Result (r : Result.t) : json :=
  JObj [(py "transcript", dump_Transcript (Result.transcript r));
        (py "entities", dump_Entities (Result.entities r));
        (py "evaluation", dump_Evaluation (Result.evaluation r))].

(** ** Concrete inputs used by the examples below *)

(** A recognised segment with one alternative and one timed word. *)
Definition segment (text : string) (start : Z) : SpeechRecognitionResult.t :=
  SpeechRecognitionResult.Build
    [Alternative.Build (py text) [WordInfo.Build start]].

(** A segment carrying two ranked alternatives. *)
Definition two_alternatives : SpeechRecognitionResult.t :=
  SpeechRecognitionResult.Build
    [Alternative.Build (py "Hello there") [WordInfo.Build 1000];
     Alternative.Build (py "Hollow") [WordInfo.Build 1200]].

(** A segment with zero alternatives. *)
Definition no_alternatives : SpeechRecognitionResult.t :=
  SpeechRecognitionResult.Build [].

(** A segment whose alternative has zero timed words. *)
Definition no_words : SpeechRecognitionResult.t :=
  SpeechRecognitionResult.Build [Alternative.Build (py "Hello") []].

(** The normalised sequences of the specification's scenario, with a tie
    at 500 ms added on the left channel. *)
Definition left_entries : list Entry.t :=
  [Entry.Build (py "Hello") 1000 0; Entry.Build (py " I see ") 500 0].

Definition right_entries : list Entry.t :=
  [Entry.Build (py "Hi") 500 1].

(** Payloads of the generative backend. *)
Definition int_metric (v : Z) (why : string) : json :=
  JObj [(py "value", JInt v); (py "justification", JStr (py why))].

Definition str_metric (v why : string) : json :=
  JObj [(py "value", JStr (py v)); (py "justification", JStr (py why))].

(** An Evaluation response with the given [greeting] and
    [customer_sentiment] values. *)
Definition evaluation_members (greeting sentiment : Z) : list (str * json) :=
  [(py "greeting", int_metric greeting "greeted");
   (py "hold", int_metric 0 "no hold");
   (py "ticket", int_metric 1 "ticket opened");
   (py "listening", int_metric 1 "listened");
   (py "understanding", int_metric 1 "understood");
   (py "tone", int_metric 1 "polite");
   (py "proactivity", int_metric 0 "reactive");
   (py "clarity", int_metric 1 "clear");
   (py "resolved", int_metric 1 "resolved");
   (py "customer_sentiment", int_metric sentiment "pleased");
   (py "escalation", int_metric 0 "none");
   (py "agent_feedback", str_metric "keep it up" "went well");
   (py "escalation_reason", str_metric "" "not escalated")].

Definition evaluation_of (greeting sentiment : Z) : Evaluation.t :=
  Evaluation.Build
    (BoolMetric.Build greeting (py "greeted"))
    (BoolMetric.Build 0 (py "no hold"))
    (BoolMetric.Build 1 (py "ticket opened"))
    (BoolMetric.Build 1 (py "listened"))
    (BoolMetric.Build 1 (py "understood"))
    (BoolMetric.Build 1 (py "polite"))
    (BoolMetric.Build 0 (py "reactive"))
    (BoolMetric.Build 1 (py "clear"))
    (BoolMetric.Build 1 (py "resolved"))
    (ScoreMetric.Build sentiment (py "pleased"))
    (BoolMetric.Build 0 (py "none"))
    (StringMetric.Build (py "keep it up") (py "went well"))
    (StringMetric.Build (py "") (py "not escalated")).

(** The members of an object without those named [k]. *)
Definition without (k : str) (members : list (str * json))
    : list (str * json) :=
  List.filter (fun kv => negb (str_eqb k (fst kv))) members.

(** An Entities response with the two speaker ids given. *)
Definition entities_payload (agent customer : Z) : json :=
  JObj [(py "agent_name", JStr (py "Ana"));
        (py "customer_name", JNull);
        (py "agent_speaker", JInt agent);
        (py "customer_speaker", JInt customer);
        (py "reason", JStr (py "billing question"));
        (py "topic", JStr (py "billing"));
        (py "subtopic", JStr (py "refund"))].

Definition entities_of (agent customer : Z) : Entities.t :=
  Entities.Build (Some (py "Ana")) None agent customer
    (Some (py "billing question")) (py "billing") (py "refund").

(** * The rest of the notebook *)

(** ** The rendered dialogue

    [str(n)] for an integer: its decimal digits, after a minus sign when
    it is negative. *)
Definition str_of_int (z : Z) : str :=
  py (NilZero.string_of_int (Z.to_int z)).

(** The characters of a printed integer: the minus sign and the ten
    digits. *)
Definition sign_or_digit (c : N) : Prop := (c = 45 \/ 48 <= c <= 57)%N.

(** [sep.join(parts)] *)
Fixpoint join (sep : str) (parts : list str) : str :=
  match parts with
  | [] => []
  | p :: rest =>
      match rest with
      | [] => p
      | _ :: _ => p ++ sep ++ join sep rest
      end
  end.

(** [f"{u.time} - {u.speaker}: {u.spoken_words}"] *)
Definition format_utterance (u : Utterance.t) : str :=
  str_of_int (Utterance.time u) ++ py " - "
  ++ str_of_int (Utterance.speaker u) ++ py ": "
  ++ Utterance.spoken_words u.

(** The line feed of ["\n"]. *)
Definition newline : N := 10%N.

(** [Transcript.__str__], and the [transcript_text] both prompts are
    given:
    ["\n".join([f"{u.time} - {u.speaker}: {u.spoken_words}"
                for u in transcript.utterances])] *)
Definition transcript_text (t : Transcript.t) : str :=
  join [newline] (format_utterance <$> Transcript.utterances t).

(** ** The set-up cell

    [os.environ] is a dictionary from names to values; [getpass.getpass]
    is what the user types at a prompt. *)

Definition REQUIRED_VARIABLES : list str :=
  [py "NVIDIA_PARAKEET_NIM_API_KEY"; py "NVIDIA_LLAMA_NIM_API_KEY"].

Definition RIVA_SPEECH_API_SERVER : str := py "RIVA_SPEECH_API_SERVER".

(** [f"Please set the {var} environment variable."] *)
Definition getpass_prompt (var : str) : str :=
  py "Please set the " ++ var ++ py " environment variable.".

Section Environ.
Variable getpass : str -> str.

(** <<
    for var in REQUIRED_VARIABLES:
        if var not in os.environ:
            os.environ[var] = getpass.getpass(f"Please set the {var} ...")
    >> *)
Fixpoint require_variables (vars : list str) (environ : gmap str str)
    : gmap str str :=
  match vars with
  | [] => environ
  | var :: rest =>
      require_variables rest
        (match environ !! var with
         | Some _ => environ
         | None => <[var := getpass (getpass_prompt var)]> environ
         end)
  end.

(** [os.getenv(key, default)] *)
Definition getenv (environ : gmap str str) (key default : str) : str :=
  match environ !! key with
  | Some v => v
  | None => default
  end.

(** The loop over the required variables, then
    [os.environ["RIVA_SPEECH_API_SERVER"] =
       os.getenv("RIVA_SPEECH_API_SERVER", "grpc.nvcf.nvidia.com")]. *)
Definition setup_environ (environ : gmap str str) : gmap str str :=
  let environ := require_variables REQUIRED_VARIABLES environ in
  <[RIVA_SPEECH_API_SERVER :=
      getenv environ RIVA_SPEECH_API_SERVER (py "grpc.nvcf.nvidia.com")]>
    environ.
End Environ.

(** The exceptions of the cells around the transcript code. *)
Inductive cell_exn : Type :=
| KeyError (key : str)
| Exception (message : str).

Inductive outcome (A : Type) : Type :=
| Done (a : A)
| Raised (e : cell_exn).
Arguments Done {A} a.
Arguments Raised {A} e.

Definition outcome_bind {A B} (m : outcome A) (k : A -> outcome B)
    : outcome B :=
  match m with
  | Done a => k a
  | Raised e => Raised e
  end.

(** [os.environ[key]] *)
Definition environ_getitem (environ : gmap str str) (key : str)
    : outcome str :=
  match environ !! key with
  | Some v => Done v
  | None => Raised (KeyError key)
  end.

(** The arguments [transcribe_with_riva] builds for [riva.client.Auth]:
    <<
    uri=os.environ["RIVA_SPEECH_API_SERVER"],
    metadata_args=[
      ['authorization',
       'Bearer {}'.format(os.environ["NVIDIA_PARAKEET_NIM_API_KEY"])],
      ['function-id', '1598d209-5e27-4d3c-8079-4751568b1081']]
    >> *)
Definition riva_auth_args (environ : gmap str str)
    : outcome (str * list (list str)) :=
  outcome_bind (environ_getitem environ RIVA_SPEECH_API_SERVER) (fun uri =>
  outcome_bind (environ_getitem environ (py "NVIDIA_PARAKEET_NIM_API_KEY"))
    (fun key =>
  Done (uri,
        [[py "authorization"; py "Bearer " ++ key];
         [py "function-id"; py "1598d209-5e27-4d3c-8079-4751568b1081"]]))).

(** The key both [ChatNVIDIA(...)] calls read:
    [api_key=os.environ["NVIDIA_LLAMA_NIM_API_KEY"]]. *)
Definition llm_api_key (environ : gmap str str) : outcome str :=
  environ_getitem environ (py "NVIDIA_LLAMA_NIM_API_KEY").

(** [s.startswith(prefix)] and [s.endswith(suffix)] *)
Fixpoint startswith (s prefix : str) : bool :=
  match prefix, s with
  | [], _ => true
  | _ :: _, [] => false
  | c :: prefix', d :: s' => N.eqb c d && startswith s' prefix'
  end.

Definition endswith (s suffix : str) : bool :=
  startswith (rev s) (rev suffix).

(** [[f for f in os.listdir("audio") if f.endswith(".wav")]], the
    listing being given in the order [os.listdir] returns. *)
Definition audio_files (listing : list str) : list str :=
  List.filter (fun f => endswith f (py ".wav")) listing.

(** <<
    if not audio_files:
        raise Exception("No .wav files found in the current directory.")
    AUDIO_FILE = audio_files[0]
    >> *)
Definition AUDIO_FILE (listing : list str) : outcome str :=
  match audio_files listing with
  | [] => Raised (Exception
                    (py "No .wav files found in the current directory."))
  | f :: _ => Done f
  end.

(** [f"results/{AUDIO_FILE}.json"], the file the Result is written to. *)
Definition result_path (audio_file : str) : str :=
  py "results/" ++ audio_file ++ py ".json".

(** ** Helpers to state the properties *)

(** The recognition results with every alternative cut down to its first
    timed word. *)
Definition first_word_only (results : list SpeechRecognitionResult.t)
    : list SpeechRecognitionResult.t :=
  (fun r =>
     SpeechRecognitionResult.Build
       ((fun a => Alternative.Build (Alternative.transcript a)
                    (take 1 (Alternative.words a)))
          <$> SpeechRecognitionResult.alternatives r)) <$> results.

(** The names of the fields of [Entities] and of [Result], in
    declaration order. *)
Definition Entities_fields : list str :=
  [py "agent_name"; py "customer_name"; py "agent_speaker";
   py "customer_speaker"; py "reason"; py "topic"; py "subtopic"].

Definition Result_fields : list str :=
  [py "transcript"; py "entities"; py "evaluation"].

(** A text without line feed. *)
Definition one_line (s : str) : Prop := newline ∉ s.

(** * JSON text

    The last cell writes [result.model_dump_json(indent=2)] to
    [results/<audio file>.json]: the JSON document of the Result,
    printed as text.  The notebook does not read the file; what reads
    such a text back into a Result is the class method
    [Result.model_validate_json], which [Result] has from pydantic's
    [BaseModel].  Both are modelled on pydantic 2: the printer is that
    of [pydantic_core.to_json] with an indentation of two spaces, the
    reader that of [pydantic_core] for JSON input.  The text is a Python
    [str]. *)

(** A code point that UTF-8 can encode: a Unicode scalar value, that is
    any code point up to [0x10FFFF] but the surrogates
    [0xD800]-[0xDFFF]. *)
Definition is_scalar (c : N) : bool :=
  ((c <? 55296) || (57343 <? c) && (c <=? 1114111))%N.

(** ** Printing *)

Definition hex_digit (n : N) : N :=
  (if n <? 10 then 48 + n else 87 + n)%N.

(** The escapes of a string: the quote, the backslash, the control
    characters; every other character is printed as it is. *)
Definition escape_char (c : N) : str :=
  (if c =? 34 then [92; 34]
   else if c =? 92 then [92; 92]
   else if c =? 8 then [92; 98]
   else if c =? 12 then [92; 102]
   else if c =? 10 then [92; 110]
   else if c =? 13 then [92; 114]
   else if c =? 9 then [92; 116]
   else if c <? 32 then [92; 117; 48; 48; hex_digit (c / 16); hex_digit (c mod 16)]
   else [c])%N.

Definition render_string (s : str) : str :=
  [34%N] ++ List.flat_map escape_char s ++ [34%N].

(** A line feed and the indentation of a nesting level, two spaces
    each. *)
Definition line_indent (level : nat) : str :=
  newline :: List.repeat 32%N (2 * level).

(** An array or an object of the given parts: [open close] when empty,
    otherwise one part per line, one level deeper, with commas
    between. *)
Definition render_block (opening closing : N) (level : nat)
    (parts : list str) : str :=
  match parts with
  | [] => [opening; closing]
  | _ :: _ =>
      [opening] ++ line_indent (S level)
      ++ join ([44%N] ++ line_indent (S level)) parts
      ++ line_indent level ++ [closing]
  end.

(** The text of a document at a nesting level.  No model has a float
    field: the documents printed here hold none, and nothing is printed
    for one. *)
Fixpoint render (level : nat) (j : json) : str :=
  match j with
  | JNull => py "null"
  | JBool true => py "true"
  | JBool false => py "false"
  | JInt z => str_of_int z
  | JFloat _ => []
  | JStr s => render_string s
  | JArr items => render_block 91 93 level (List.map (render (S level)) items)
  | JObj members =>
      render_block 123 125 level
        (List.map (fun kv => render_string (fst kv) ++ [58; 32]%N
                             ++ render (S level) (snd kv)) members)
  end.

(** What can be printed: a document without floats whose texts, keys
    included, can all be encoded. *)
Fixpoint printable (j : json) : bool :=
  match j with
  | JNull | JBool _ | JInt _ => true
  | JFloat _ => false
  | JStr s => forallb is_scalar s
  | JArr items => forallb printable items
  | JObj members =>
      forallb (fun kv => forallb is_scalar (fst kv) && printable (snd kv))
        members
  end.

Inductive serialized (A : Type) : Type :=
| Serialized (a : A)
| PydanticSerializationError.
Arguments Serialized {A} a.
Arguments PydanticSerializationError {A}.

(** [result.model_dump_json(indent=2)]: the text of the document of the
    Result, or an error when a text of the Result cannot be encoded. *)
Definition model_dump_json (r : Result.t) : serialized str :=
  if printable (dump_Result r) then Serialized (render 0 (dump_Result r))
  else PydanticSerializationError.

(** ** Reading *)

Definition is_ws (c : N) : bool :=
  ((c =? 32) || (c =? 10) || (c =? 13) || (c =? 9))%N.

Fixpoint skip_ws (text : str) : str :=
  match text with
  | [] => []
  | c :: rest => if is_ws c then skip_ws rest else text
  end.

Definition hex_value (c : N) : option N :=
  (if (48 <=? c) && (c <=? 57) then Some (c - 48)
   else if (97 <=? c) && (c <=? 102) then Some (c - 87)
   else if (65 <=? c) && (c <=? 70) then Some (c - 55)
   else None)%N.

(** The four hexadecimal digits of a [\u] escape. *)
Definition hex4 (h1 h2 h3 h4 : N) : option N :=
  match hex_value h1, hex_value h2, hex_value h3, hex_value h4 with
  | Some a, Some b, Some c, Some d => Some (((a * 16 + b) * 16 + c) * 16 + d)%N
  | _, _, _, _ => None
  end.

Definition cons_char (c : N) (r : option (str * str)) : option (str * str) :=
  match r with
  | Some (s, rest) => Some (c :: s, rest)
  | None => None
  end.

(** The characters of a string after its opening quote, up to the
    closing quote, and the text after it.  A [\u] escape of a high
    surrogate must be followed by one of a low surrogate, the two making
    one character. *)
Fixpoint parse_string_body (text : str) : option (str * str) :=
  match text with
  | [] => None
  | c :: rest =>
      if (c =? 34)%N then Some ([], rest)
      else if (c =? 92)%N then
        match rest with
        | [] => None
        | e :: rest1 =>
            if (e =? 34)%N then cons_char 34 (parse_string_body rest1)
            else if (e =? 92)%N then cons_char 92 (parse_string_body rest1)
            else if (e =? 47)%N then cons_char 47 (parse_string_body rest1)
            else if (e =? 98)%N then cons_char 8 (parse_string_body rest1)
            else if (e =? 102)%N then cons_char 12 (parse_string_body rest1)
            else if (e =? 110)%N then cons_char 10 (parse_string_body rest1)
            else if (e =? 114)%N then cons_char 13 (parse_string_body rest1)
            else if (e =? 116)%N then cons_char 9 (parse_string_body rest1)
            else if (e =? 117)%N then
              match rest1 with
              | h1 :: h2 :: h3 :: h4 :: rest2 =>
                  match hex4 h1 h2 h3 h4 with
                  | None => None
                  | Some u =>
                      if is_scalar u then cons_char u (parse_string_body rest2)
                      else if (u <? 56320)%N then
                        match rest2 with
                        | b :: v :: l1 :: l2 :: l3 :: l4 :: rest3 =>
                            if (b =? 92)%N && (v =? 117)%N then
                              match hex4 l1 l2 l3 l4 with
                              | None => None
                              | Some w =>
                                  if (56320 <=? w)%N && (w <=? 57343)%N then
                                    cons_char
                                      (65536 + (u - 55296) * 1024
                                       + (w - 56320))%N
                                      (parse_string_body rest3)
                                  else None
                              end
                            else None
                        | _ => None
                        end
                      else None
                  end
              | _ => None
              end
            else None
        end
      else if (32 <=? c)%N && is_scalar c then
        cons_char c (parse_string_body rest)
      else None
  end.

Definition digit_of (c : N) : option (Decimal.uint -> Decimal.uint) :=
  (if c =? 48 then Some Decimal.D0
   else if c =? 49 then Some Decimal.D1
   else if c =? 50 then Some Decimal.D2
   else if c =? 51 then Some Decimal.D3
   else if c =? 52 then Some Decimal.D4
   else if c =? 53 then Some Decimal.D5
   else if c =? 54 then Some Decimal.D6
   else if c =? 55 then Some Decimal.D7
   else if c =? 56 then Some Decimal.D8
   else if c =? 57 then Some Decimal.D9
   else None)%N.

(** The longest run of decimal digits a text starts with, and the text
    after it. *)
Fixpoint take_digits (text : str) : Decimal.uint * str :=
  match text with
  | [] => (Decimal.Nil, [])
  | c :: rest =>
      match digit_of c with
      | Some digit => let (d, rest') := take_digits rest in (digit d, rest')
      | None => (Decimal.Nil, text)
      end
  end.

(** The integer part of a number: one digit at least, and no zero in
    front of another digit. *)
Definition integer_part (d : Decimal.uint) : bool :=
  match d with
  | Decimal.Nil => false
  | Decimal.D0 Decimal.Nil => true
  | Decimal.D0 _ => false
  | _ => true
  end.

Definition nonempty_digits (d : Decimal.uint) : bool :=
  match d with
  | Decimal.Nil => false
  | _ => true
  end.

(** The two limits of the reader.  A number whose integer part takes
    more than 4300 characters, sign included, is not read ([number out
    of range]), nor is a value inside more than 200 arrays and objects
    ([recursion limit exceeded]). *)
Definition max_int_length : nat := 4300.

Definition recursion_limit : nat := 200.

(** The fraction after the integer part of a number: a point and one
    digit at least.  The result tells whether there is one, and gives
    the text after it. *)
Definition parse_fraction (text : str) : option (bool * str) :=
  match text with
  | c :: rest =>
      if (c =? 46)%N then
        let (f, rest') := take_digits rest in
        if nonempty_digits f then Some (true, rest') else None
      else Some (false, text)
  | [] => Some (false, text)
  end.

(** The exponent of a number: [e] or [E], a sign or none, and one digit
    at least. *)
Definition parse_exponent (text : str) : option (bool * str) :=
  match text with
  | c :: rest =>
      if (c =? 101)%N || (c =? 69)%N then
        let rest1 :=
          match rest with
          | s :: rest' => if (s =? 45)%N || (s =? 43)%N then rest' else rest
          | [] => rest
          end in
        let (e, rest2) := take_digits rest1 in
        if nonempty_digits e then Some (true, rest2) else None
      else Some (false, text)
  | [] => Some (false, text)
  end.

(** A text at which a number ends: it starts with no digit, no point
    and no exponent mark. *)
Definition number_end (rest : str) : Prop :=
  match rest with
  | [] => True
  | c :: _ => digit_of c = None /\ c <> 46%N /\ c <> 101%N /\ c <> 69%N
  end.

(** [word] at the start of a text, and the text after it. *)
Definition parse_word (word : str) (j : json) (text : str)
    : option (json * str) :=
  if startswith text word then Some (j, drop (length word) text) else None.

Section Reading.

(** No field of a [Result] is a float.  What a float literal is read as
    (the nearest binary64 float, an infinity, NaN) is left open: a
    document [read_float literal], whatever it is. *)
Variable read_float : str -> json.

(** The three words that are read as floats. *)
Definition parse_nonfinite (text : str) : option (json * str) :=
  match List.find (startswith text)
          [py "NaN"; py "Infinity"; py "-Infinity"] with
  | Some word => parse_word word (read_float word) text
  | None => None
  end.

(** A number: a JSON integer when it has neither fraction nor exponent,
    a float otherwise. *)
Definition parse_number (text : str) : option (json * str) :=
  let (negative, text1) :=
    match text with
    | c :: rest => if (c =? 45)%N then (true, rest) else (false, text)
    | [] => (false, text)
    end in
  let (d, text2) := take_digits text1 in
  if integer_part d then
    if (length text - length text2 <=? max_int_length)%nat then
      match parse_fraction text2 with
      | None => None
      | Some (fraction, text3) =>
          match parse_exponent text3 with
          | None => None
          | Some (exponent, rest) =>
              if fraction || exponent then
                Some (read_float (take (length text - length rest) text), rest)
              else
                Some (JInt (if negative then - Z.of_uint d else Z.of_uint d),
                      rest)
          end
      end
    else None
  else parse_nonfinite text.

(** A value, the elements of an array after its bracket and the members
    of an object after its brace.  [depth] is the number of arrays and
    objects that may still be entered.  [fuel] bounds the number of
    nested calls; more than twice the length of the text is enough
    for every text, as is shown with the facts on the fuel below. *)
Fixpoint parse_value (fuel depth : nat) (text : str) {struct fuel}
    : option (json * str) :=
  match fuel with
  | O => None
  | S fuel' =>
      match skip_ws text with
      | [] => None
      | c :: rest =>
          if (c =? 34)%N then
            match parse_string_body rest with
            | Some (s, rest') => Some (JStr s, rest')
            | None => None
            end
          else if (c =? 91)%N then
            match skip_ws rest with
            | [] => None
            | c' :: rest' =>
                if (c' =? 93)%N then Some (JArr [], rest')
                else
                  match depth with
                  | O => None
                  | S depth' => parse_items fuel' depth' rest []
                  end
            end
          else if (c =? 123)%N then
            match skip_ws rest with
            | [] => None
            | c' :: rest' =>
                if (c' =? 125)%N then Some (JObj [], rest')
                else
                  match depth with
                  | O => None
                  | S depth' => parse_members fuel' depth' rest []
                  end
            end
          else if (c =? 110)%N then parse_word (py "null") JNull (c :: rest)
          else if (c =? 116)%N then
            parse_word (py "true") (JBool true) (c :: rest)
          else if (c =? 102)%N then
            parse_word (py "false") (JBool false) (c :: rest)
          else parse_number (c :: rest)
      end
  end
with parse_items (fuel depth : nat) (text : str) (acc : list json)
    {struct fuel} : option (json * str) :=
  match fuel with
  | O => None
  | S fuel' =>
      match parse_value fuel' depth text with
      | None => None
      | Some (v, rest) =>
          match skip_ws rest with
          | [] => None
          | c :: rest' =>
              if (c =? 44)%N then parse_items fuel' depth rest' (acc ++ [v])
              else if (c =? 93)%N then Some (JArr (acc ++ [v]), rest')
              else None
          end
      end
  end
with parse_members (fuel depth : nat) (text : str) (acc : list (str * json))
    {struct fuel} : option (json * str) :=
  match fuel with
  | O => None
  | S fuel' =>
      match skip_ws text with
      | [] => None
      | q :: rest =>
          if (q =? 34)%N then
            match parse_string_body rest with
            | None => None
            | Some (k, rest1) =>
                match skip_ws rest1 with
                | [] => None
                | colon :: rest2 =>
                    if (colon =? 58)%N then
                      match parse_value fuel' depth rest2 with
                      | None => None
                      | Some (v, rest3) =>
                          match skip_ws rest3 with
                          | [] => None
                          | c :: rest4 =>
                              if (c =? 44)%N then
                                parse_members fuel' depth rest4
                                  (acc ++ [(k, v)])
                              else if (c =? 125)%N then
                                Some (JObj (acc ++ [(k, v)]), rest4)
                              else None
                          end
                      end
                    else None
                end
            end
          else None
      end
  end.

(** A whole text: one value, with nothing but white space around it. *)
Definition parse_json (text : str) : option json :=
  match parse_value (S (2 * length text)) recursion_limit text with
  | Some (j, rest) =>
      match skip_ws rest with
      | [] => Some j
      | _ :: _ => None
      end
  | None => None
  end.

End Reading.

(** [Result.model_validate_json(text)]: the text is read as a JSON
    document, which is then validated.  A text that is not read, because
    it is no JSON document (error type [json_invalid]) or cannot be
    encoded ([string_unicode]), is a validation error before any field
    is looked at. *)
Inductive json_validated (A : Type) : Type :=
| Unreadable
| Validated (r : validated A).
Arguments Unreadable {A}.
Arguments Validated {A} r.

Definition model_validate_json (lax_int : json -> option Z)
    (read_float : str -> json) (text : str) : json_validated Result.t :=
  match parse_json read_float text with
  | None => Unreadable
  | Some j => Validated (validate_Result lax_int j)
  end.

(** What a printed document starts with. *)
Definition value_head (c : N) : Prop :=
  (c = 110 \/ c = 116 \/ c = 102 \/ c = 34 \/ c = 91 \/ c = 123
   \/ sign_or_digit c)%N.

(** An integer that is printed in 4300 characters at most. *)
Definition short_int (z : Z) : bool :=
  (length (str_of_int z) <=? max_int_length)%nat.

(** What is read back from its text with [depth] arrays and objects to
    enter: a document whose integers are not too long, and that is not
    nested too deep. *)
Fixpoint readable (depth : nat) (j : json) {struct j} : bool :=
  match j with
  | JInt z => short_int z
  | JArr items =>
      match items, depth with
      | [], _ => true
      | _ :: _, O => false
      | _ :: _, S depth' => forallb (readable depth') items
      end
  | JObj members =>
      match members, depth with
      | [], _ => true
      | _ :: _, O => false
      | _ :: _, S depth' =>
          forallb (fun kv => readable depth' (snd kv)) members
      end
  | _ => true
  end.

(** A document is read back from its text: whatever the nesting level
    it is printed at and whatever follows it, given fuel for twice the
    length of the text. *)
Definition round_trips (read_float : str -> json) (depth : nat) (j : json)
    : Prop :=
  forall level fuel rest,
    number_end rest ->
    (2 * length (render level j ++ rest) < fuel)%nat ->
    parse_value read_float fuel depth (render level j ++ rest)
    = Some (j, rest).

(** The texts a Result holds, in the order of its fields. *)
Definition metric_texts (e : Evaluation.t) : list str :=
  [BoolMetric.justification (Evaluation.greeting e);
   BoolMetric.justification (Evaluation.hold e);
   BoolMetric.justification (Evaluation.ticket e);
   BoolMetric.justification (Evaluation.listening e);
   BoolMetric.justification (Evaluation.understanding e);
   BoolMetric.justification (Evaluation.tone e);
   BoolMetric.justification (Evaluation.proactivity e);
   BoolMetric.justification (Evaluation.clarity e);
   BoolMetric.justification (Evaluation.resolved e);
   ScoreMetric.justification (Evaluation.customer_sentiment e);
   BoolMetric.justification (Evaluation.escalation e);
   StringMetric.value (Evaluation.agent_feedback e);
   StringMetric.justification (Evaluation.agent_feedback e);
   StringMetric.value (Evaluation.escalation_reason e);
   StringMetric.justification (Evaluation.escalation_reason e)].

Definition optional_text (o : option str) : list str :=
  match o with
  | Some s => [s]
  | None => []
  end.

Definition Result_texts (r : Result.t) : list str :=
  (Utterance.spoken_words <$> Transcript.utterances (Result.transcript r))
  ++ optional_text (Entities.agent_name (Result.entities r))
  ++ optional_text (Entities.customer_name (Result.entities r))
  ++ optional_text (Entities.reason (Result.entities r))
  ++ [Entities.topic (Result.entities r);
      Entities.subtopic (Result.entities r)]
  ++ metric_texts (Result.evaluation r).

(** Every text of the Result can be encoded: none holds a lone
    surrogate. *)
Definition encodable (r : Result.t) : bool :=
  forallb (forallb is_scalar) (Result_texts r).

(** The integers a Result holds. *)
Definition metric_ints (e : Evaluation.t) : list Z :=
  [BoolMetric.value (Evaluation.greeting e);
   BoolMetric.value (Evaluation.hold e);
   BoolMetric.value (Evaluation.ticket e);
   BoolMetric.value (Evaluation.listening e);
   BoolMetric.value (Evaluation.understanding e);
   BoolMetric.value (Evaluation.tone e);
   BoolMetric.value (Evaluation.proactivity e);
   BoolMetric.value (Evaluation.clarity e);
   BoolMetric.value (Evaluation.resolved e);
   ScoreMetric.value (Evaluation.customer_sentiment e);
   BoolMetric.value (Evaluation.escalation e)].

Definition Result_ints (r : Result.t) : list Z :=
  List.flat_map (fun u => [Utterance.time u; Utterance.speaker u])
    (Transcript.utterances (Result.transcript r))
  ++ [Transcript.call_duration (Result.transcript r);
      Entities.agent_speaker (Result.entities r);
      Entities.customer_speaker (Result.entities r)]
  ++ metric_ints (Result.evaluation r).

Definition short_ints (r : Result.t) : bool :=
  forallb short_int (Result_ints r).

(** A Result for the examples, with the given topic and the given time
    of its first utterance. *)
Definition result_of (topic : str) (time : Z) : Result.t :=
  Result.Build
    (Transcript.Build
       [Utterance.Build time 1 (py "Hi");
        Utterance.Build 1000 0 ([34; 233; 10]%N ++ py "Hello")] 5000)
    (Entities.Build (Some (py "Ana")) None 0 1 (Some (py "billing question"))
       topic (py "refund"))
    (evaluation_of 1 7).
(** ** Facts on the stable sort *)

Section SortByFacts.
Context {A : Type} (key : A -> Z).


Lemma insert_by_perm x l : insert_by key x l ≡ₚ x :: l.
Proof.
  induction l as [|y l IH]; simpl; [done|].
  destruct (key y <? key x); [|done].
  rewrite IH. apply Permutation_swap.
Qed.

Lemma sort_by_perm l : sort_by key l ≡ₚ l.
Proof.
  induction l as [|x l IH]; simpl; [done|].
  by rewrite insert_by_perm, IH.
Qed.

Lemma insert_by_sorted x l :
  StronglySorted (key_le key) l -> StronglySorted (key_le key) (insert_by key x l).
Proof.
  induction 1 as [|y l Hs IH Hy]; simpl.
  - repeat constructor.
  - destruct (Z.ltb_spec (key y) (key x)) as [Hlt|Hge].
    + constructor; [done|].
      rewrite insert_by_perm. constructor; [unfold key_le; lia | done].
    + constructor; [by constructor|].
      constructor; [done|].
      eapply Forall_impl; [exact Hy|]. unfold key_le. intros; lia.
Qed.

Lemma sort_by_sorted l : StronglySorted (key_le key) (sort_by key l).
Proof.
  induction l; simpl; [constructor | by apply insert_by_sorted].
Qed.

Lemma insert_by_filter k x l :
  filter (fun y => key y = k) (insert_by key x l)
  = filter (fun y => key y = k) (x :: l).
Proof.
  induction l as [|y l IH]; simpl; [done|].
  destruct (Z.ltb_spec (key y) (key x)) as [Hlt|Hge]; [|done].
  rewrite filter_cons, IH, !filter_cons.
  repeat case_decide; try done; lia.
Qed.

Lemma sort_by_filter k l :
  filter (fun y => key y = k) (sort_by key l) = filter (fun y => key y = k) l.
Proof.
  induction l as [|x l IH]; simpl; [done|].
  by rewrite insert_by_filter, !filter_cons, IH.
Qed.

Lemma sorted_stable_unique (l1 l2 : list A) :
  StronglySorted (key_le key) l1 -> StronglySorted (key_le key) l2 ->
  (forall k, filter (fun y => key y = k) l1 = filter (fun y => key y = k) l2) ->
  l1 = l2.
Proof.
  intros Hs1; revert l2.
  induction Hs1 as [|x l1 Hs1 IH Hx]; intros l2 Hs2 Hf.
  - destruct l2 as [|y l2]; [done|].
    specialize (Hf (key y)). rewrite filter_cons_True in Hf by done. done.
  - destruct Hs2 as [|y l2 Hs2 Hy].
    { specialize (Hf (key x)). rewrite filter_cons_True in Hf by done. done. }
    assert (key x = key y) as Hk.
    { destruct (Z.lt_total (key x) (key y)) as [Hlt|[Heq|Hgt]]; [|done|].
      - assert (x ∈ y :: l2) as Hin.
        { eapply (list_elem_of_filter (fun z => key z = key x)).
          rewrite <- Hf, filter_cons_True by done. left. }
        apply elem_of_cons in Hin as [->|Hin]; [lia|].
        rewrite Forall_forall in Hy. apply Hy in Hin. unfold key_le in Hin. lia.
      - assert (y ∈ x :: l1) as Hin.
        { eapply (list_elem_of_filter (fun z => key z = key y)).
          rewrite Hf, filter_cons_True by done. left. }
        apply elem_of_cons in Hin as [->|Hin]; [lia|].
        rewrite Forall_forall in Hx. apply Hx in Hin. unfold key_le in Hin. lia. }
    assert (x = y) as ->.
    { specialize (Hf (key x)).
      rewrite !filter_cons_True in Hf by done. congruence. }
    f_equal. apply IH; [done|]. intros k. specialize (Hf k).
    rewrite !filter_cons in Hf. case_decide; congruence.
Qed.

(** Any stable sort by [key] returns what [sort_by] returns. *)
Lemma sort_by_unique (l l' : list A) :
  StronglySorted (key_le key) l' ->
  (forall k, filter (fun y => key y = k) l' = filter (fun y => key y = k) l) ->
  l' = sort_by key l.
Proof.
  intros Hs Hf. apply sorted_stable_unique; [done|apply sort_by_sorted|].
  intros k. by rewrite Hf, sort_by_filter.
Qed.
End SortByFacts.

(** ** Facts on the float cast *)

Lemma round_half_even_bounds s a :
  0 < s -> 0 <= a ->
  a / 2 ^ s * 2 ^ s <= round_half_even s a <= (a / 2 ^ s + 1) * 2 ^ s.
Proof.
  intros Hs Ha. unfold round_half_even.
  rewrite !Z.shiftl_mul_pow2, Z.shiftr_div_pow2 by lia.
  assert (0 < 2 ^ s) as HP by (apply Z.pow_pos_nonneg; lia).
  repeat match goal with |- context [if ?c then _ else _] => destruct c end;
    nia.
Qed.

Lemma round_half_even_mono s a b :
  0 < s -> 0 <= a <= b -> round_half_even s a <= round_half_even s b.
Proof.
  intros Hs [Ha Hab].
  assert (0 < 2 ^ s) as HP by (apply Z.pow_pos_nonneg; lia).
  assert (a / 2 ^ s <= b / 2 ^ s) as Hq by (apply Z.div_le_mono; lia).
  destruct (Z.eq_dec (a / 2 ^ s) (b / 2 ^ s)) as [Heq|Hne].
  - unfold round_half_even.
    rewrite !Z.shiftl_mul_pow2, !Z.shiftr_div_pow2 by lia.
    rewrite <- Heq.
    apply Z.mul_le_mono_nonneg_r; [lia|].
    repeat match goal with
           | |- context [?x <? ?y] => destruct (Z.ltb_spec x y)
           | |- context [Z.even ?x] => destruct (Z.even x)
           end; lia.
  - pose proof (round_half_even_bounds s a Hs Ha) as [_ Hup].
    pose proof (round_half_even_bounds s b Hs ltac:(lia)) as [Hlo _].
    nia.
Qed.

Lemma float_of_int_exact z : Z.abs z < 2 ^ 53 -> float_of_int z = z.
Proof.
  intros Hz. unfold float_of_int.
  assert (Z.log2 (Z.abs z) < 53) as Hlog.
  { destruct (Z.eq_dec (Z.abs z) 0) as [->|Hne]; [done|].
    apply Z.log2_lt_pow2; lia. }
  apply Z.ltb_lt in Hlog. by rewrite Hlog.
Qed.

Lemma float_of_int32 z : in_int32 z -> float_of_int z = z.
Proof.
  intros [Hlo Hhi]. apply float_of_int_exact.
  assert (2 ^ 31 < 2 ^ 53) by done. lia.
Qed.

Lemma float_of_int_opp z : float_of_int (- z) = - float_of_int z.
Proof.
  unfold float_of_int. rewrite Z.abs_opp, Z.sgn_opp.
  destruct (Z.log2 (Z.abs z) <? 53); lia.
Qed.

(** The float of a non-negative integer stays in the binade of the
    integer. *)
Lemma float_of_int_binade a :
  0 < a -> 2 ^ Z.log2 a <= float_of_int a <= 2 ^ (Z.log2 a + 1).
Proof.
  intros Ha. pose proof (Z.log2_spec a Ha) as [Hlo Hhi].
  replace (Z.succ (Z.log2 a)) with (Z.log2 a + 1) in Hhi by lia.
  unfold float_of_int. rewrite Z.abs_eq, Z.sgn_pos by lia.
  destruct (Z.ltb_spec (Z.log2 a) 53) as [Hn|Hn]; [lia|].
  set (s := Z.log2 a - 52).
  assert (0 < s) as Hs by (unfold s; lia).
  assert (0 < 2 ^ s) as HP by (apply Z.pow_pos_nonneg; lia).
  assert (2 ^ Z.log2 a = 2 ^ 52 * 2 ^ s) as E1.
  { rewrite <- Z.pow_add_r by lia. f_equal. unfold s. lia. }
  assert (2 ^ (Z.log2 a + 1) = 2 ^ 53 * 2 ^ s) as E2.
  { rewrite <- Z.pow_add_r by lia. f_equal. unfold s. lia. }
  assert (2 ^ 52 <= a / 2 ^ s) as Hq1.
  { apply Z.div_le_lower_bound; lia. }
  assert (a / 2 ^ s < 2 ^ 53) as Hq2.
  { apply Z.div_lt_upper_bound; lia. }
  pose proof (round_half_even_bounds s a Hs ltac:(lia)) as [Hl Hu].
  rewrite Z.mul_1_l, E1, E2. split; nia.
Qed.

Lemma float_of_int_mono_nonneg a b :
  0 <= a <= b -> float_of_int a <= float_of_int b.
Proof.
  intros [Ha Hab].
  destruct (Z.eq_dec a 0) as [->|Ha0].
  { destruct (Z.eq_dec b 0) as [->|Hb0]; [done|].
    pose proof (float_of_int_binade b ltac:(lia)) as [Hlo _].
    assert (0 < 2 ^ Z.log2 b)
      by (apply Z.pow_pos_nonneg; [lia | apply Z.log2_nonneg]).
    change (float_of_int 0) with 0. lia. }
  assert (Z.log2 a <= Z.log2 b) as Hlog by (apply Z.log2_le_mono; lia).
  destruct (Z.eq_dec (Z.log2 a) (Z.log2 b)) as [Heq|Hne].
  - unfold float_of_int. rewrite !Z.abs_eq, !Z.sgn_pos, <- Heq by lia.
    destruct (Z.ltb_spec (Z.log2 a) 53) as [Hn|Hn]; [done|].
    rewrite !Z.mul_1_l. apply round_half_even_mono; lia.
  - pose proof (float_of_int_binade a ltac:(lia)) as [_ Hup].
    pose proof (float_of_int_binade b ltac:(lia)) as [Hlo _].
    assert (2 ^ (Z.log2 a + 1) <= 2 ^ Z.log2 b).
    { apply Z.pow_le_mono_r; lia. }
    lia.
Qed.

Lemma float_of_int_nonneg a : 0 <= a -> 0 <= float_of_int a.
Proof.
  intros Ha. change 0 with (float_of_int 0) at 1.
  apply float_of_int_mono_nonneg. lia.
Qed.

(** The cast preserves the order of the integers. *)
Lemma float_of_int_mono z1 z2 :
  z1 <= z2 -> float_of_int z1 <= float_of_int z2.
Proof.
  intros Hle.
  destruct (Z.le_gt_cases 0 z1) as [H1|H1].
  - apply float_of_int_mono_nonneg. lia.
  - destruct (Z.le_gt_cases 0 z2) as [H2|H2].
    + pose proof (float_of_int_nonneg z2 H2).
      pose proof (float_of_int_nonneg (- z1) ltac:(lia)) as Hn.
      rewrite float_of_int_opp in Hn. lia.
    + pose proof (float_of_int_mono_nonneg (- z2) (- z1) ltac:(lia)) as Hm.
      rewrite !float_of_int_opp in Hm. lia.
Qed.

(** ** Facts on [extract_transcript] *)

Lemma extract_alternatives_app alts1 alts2 label acc :
  extract_alternatives (alts1 ++ alts2) label acc
  = exc_bind (extract_alternatives alts1 label acc)
      (fun acc' => extract_alternatives alts2 label acc').
Proof.
  revert acc. induction alts1 as [|a alts1 IH]; intros acc; simpl; [done|].
  destruct (first_word_start_time a); simpl; [apply IH | done].
Qed.

(** The two nested loops are one loop over [all_alternatives]. *)
Lemma extract_results_flat results label acc :
  extract_results results label acc
  = extract_alternatives (all_alternatives results) label acc.
Proof.
  revert acc. induction results as [|r results IH]; intros acc; simpl; [done|].
  rewrite extract_alternatives_app.
  destruct (extract_alternatives _ label acc); simpl; [apply IH | done].
Qed.

Lemma extract_alternatives_Return alts label acc :
  Forall (fun a => Alternative.words a <> []) alts ->
  exists es,
    extract_alternatives alts label acc = Return (acc ++ es)
    /\ Forall2 (entry_of label) alts es.
Proof.
  intros Hall. revert acc.
  induction Hall as [|a alts Ha Hall IH]; intros acc; simpl.
  - exists []. by rewrite app_nil_r.
  - unfold first_word_start_time.
    destruct (Alternative.words a) as [|w ws] eqn:Hw; [done|]. simpl.
    destruct (IH (acc ++ [Entry.Build (Alternative.transcript a)
                            (WordInfo.start_time w) label])) as (es & -> & Hes).
    eexists (_ :: es). split; [by rewrite <- app_assoc|].
    constructor; [|done]. by exists w, ws.
Qed.

Lemma extract_alternatives_Raise alts label acc :
  Exists (fun a => Alternative.words a = []) alts ->
  extract_alternatives alts label acc = Raise IndexError.
Proof.
  intros Hex. revert acc.
  induction Hex as [a alts Ha|a alts Hex IH]; intros acc; simpl.
  - unfold first_word_start_time. by rewrite Ha.
  - destruct (first_word_start_time a) as [st|[]]; simpl; [apply IH | done].
Qed.

Lemma words_dichotomy (alts : list Alternative.t) :
  Forall (fun a => Alternative.words a <> []) alts
  \/ Exists (fun a => Alternative.words a = []) alts.
Proof.
  induction alts as [|a alts [IH|IH]].
  - left. constructor.
  - destruct (Alternative.words a) eqn:Hw.
    + right. by left.
    + left. constructor; [by rewrite Hw | done].
  - right. by right.
Qed.

Lemma extract_transcript_Return results label :
  Forall (fun a => Alternative.words a <> []) (all_alternatives results) ->
  exists es,
    extract_transcript results label = Return es
    /\ Forall2 (entry_of label) (all_alternatives results) es.
Proof.
  intros Hall. unfold extract_transcript. rewrite extract_results_flat.
  destruct (extract_alternatives_Return _ label [] Hall) as (es & Hes & HF).
  by exists es.
Qed.

Lemma extract_transcript_Raise results label :
  Exists (fun a => Alternative.words a = []) (all_alternatives results) ->
  extract_transcript results label = Raise IndexError.
Proof.
  intros Hex. unfold extract_transcript. rewrite extract_results_flat.
  by apply extract_alternatives_Raise.
Qed.

Lemma extract_transcript_inv results label es :
  extract_transcript results label = Return es ->
  Forall (fun a => Alternative.words a <> []) (all_alternatives results)
  /\ Forall2 (entry_of label) (all_alternatives results) es.
Proof.
  intros Hret.
  destruct (words_dichotomy (all_alternatives results)) as [Hall|Hex].
  - split; [done|].
    destruct (extract_transcript_Return results label Hall) as (es' & He & HF).
    congruence.
  - rewrite (extract_transcript_Raise results label Hex) in Hret. done.
Qed.

Lemma entry_of_speaker label alts es :
  Forall2 (entry_of label) alts es ->
  Forall (fun e => Entry.speaker e = label) es.
Proof.
  induction 1 as [|a e alts es (w & ws & _ & ->) _ IH]; constructor; done.
Qed.

Lemma int32_all_alternatives results :
  int32_results results ->
  Forall (fun a =>
    Forall (fun w => in_int32 (WordInfo.start_time w)) (Alternative.words a))
    (all_alternatives results).
Proof.
  induction 1 as [|r results Hr _ IH]; simpl; [constructor|].
  apply Forall_app. done.
Qed.

Lemma entry_of_int32 label alts es :
  Forall (fun a =>
    Forall (fun w => in_int32 (WordInfo.start_time w)) (Alternative.words a))
    alts ->
  Forall2 (entry_of label) alts es ->
  int32_entries es.
Proof.
  intros Hall HF. revert Hall.
  induction HF as [|a e alts es (w & ws & Hw & ->) _ IH]; intros Hall.
  - constructor.
  - apply Forall_cons in Hall as [Ha Hall]. constructor; [|by apply IH].
    rewrite Hw in Ha. apply Forall_cons in Ha as [Ha _]. done.
Qed.

(** A result without alternatives is passed over by the loops. *)
Lemma all_alternatives_filter results :
  all_alternatives
    (filter (fun r => SpeechRecognitionResult.alternatives r <> []) results)
  = all_alternatives results.
Proof.
  induction results as [|r results IH]; [done|].
  rewrite filter_cons. case_decide as Hr; simpl; rewrite IH; [done|].
  destruct (SpeechRecognitionResult.alternatives r); done.
Qed.

Lemma extract_transcript_filter results label :
  extract_transcript
    (filter (fun r => SpeechRecognitionResult.alternatives r <> []) results)
    label
  = extract_transcript results label.
Proof.
  unfold extract_transcript.
  by rewrite !extract_results_flat, all_alternatives_filter.
Qed.

(** ** Facts on [to_utterance] and on [strip] *)

Lemma to_utterance_int32 e :
  in_int32 (Entry.start_time e) ->
  to_utterance e
  = Utterance.Build (Entry.start_time e) (Entry.speaker e)
      (strip (Entry.transcript e)).
Proof.
  intros He. unfold to_utterance, int_of_integral_float.
  by rewrite float_of_int32.
Qed.

Lemma lstrip_spec s :
  exists pre,
    s = pre ++ lstrip s
    /\ Forall (fun c => is_space c = true) pre
    /\ (forall c rest, lstrip s = c :: rest -> is_space c = false).
Proof.
  induction s as [|c s (pre & Hs & Hpre & Hhd)]; simpl.
  - exists []. split; [done|]. split; [constructor | done].
  - destruct (is_space c) eqn:Hc.
    + exists (c :: pre). split; [simpl; by f_equal|].
      split; [by constructor | done].
    + exists []. split; [done|]. split; [constructor|].
      intros ?? [= <- _]. done.
Qed.

(** [strip] removes a whitespace prefix and a whitespace suffix, and what
    is left neither starts nor ends with whitespace. *)
Lemma strip_spec s :
  exists pre post,
    s = pre ++ strip s ++ post
    /\ Forall (fun c => is_space c = true) pre
    /\ Forall (fun c => is_space c = true) post
    /\ (forall c rest, strip s = c :: rest -> is_space c = false)
    /\ (forall c rest, strip s = rest ++ [c] -> is_space c = false).
Proof.
  destruct (lstrip_spec s) as (pre & Hs & Hpre & Hhd).
  destruct (lstrip_spec (rev (lstrip s))) as (tsop & Hr & Htsop & Hlast).
  exists pre, (rev tsop). unfold strip, rstrip.
  assert (lstrip s = rev (lstrip (rev (lstrip s))) ++ rev tsop) as Hmid.
  { rewrite <- rev_app_distr, <- Hr. by rewrite rev_involutive. }
  split; [by rewrite <- Hmid|].
  split; [done|].
  split; [rewrite Forall_forall in Htsop |- *; intros c Hc;
          apply Htsop, list_elem_of_In, in_rev; by apply list_elem_of_In |].
  split.
  - intros c rest Hc.
    destruct (lstrip s) as [|c' s'] eqn:Hl; [done|].
    rewrite Hc in Hmid. injection Hmid as -> _. by eapply Hhd.
  - intros c rest Hc. apply (Hlast c (rev rest)).
    apply (f_equal (@rev N)) in Hc.
    by rewrite rev_involutive, rev_app_distr in Hc.
Qed.

(** ** Facts on the merge *)

Lemma StronglySorted_lookup_le {A} (R : relation A) (l : list A) i j x y :
  StronglySorted R l -> (i < j)%nat ->
  l !! i = Some x -> l !! j = Some y -> R x y.
Proof.
  intros Hs. revert i j.
  induction Hs as [|z l Hs IH Hz]; intros i j Hij Hi Hj; [done|].
  destruct j as [|j]; [lia|]. simpl in Hj.
  destruct i as [|i]; simpl in Hi.
  - injection Hi as ->. rewrite Forall_forall in Hz.
    apply Hz. by eapply list_elem_of_lookup_2.
  - apply (IH i j); [lia|done..].
Qed.

(** Two positions of a list, in order, split it in three. *)
Lemma lookup_split_two {A} (l : list A) i j x y :
  (i < j)%nat -> l !! i = Some x -> l !! j = Some y ->
  exists l1 l2 l3, l = l1 ++ x :: l2 ++ y :: l3.
Proof.
  intros Hij Hi Hj.
  exists (take i l), (take (j - S i) (drop (S i) l)),
         (drop (S (j - S i)) (drop (S i) l)).
  rewrite (take_drop_middle (drop (S i) l) (j - S i) y).
  - by rewrite take_drop_middle.
  - rewrite lookup_drop. by replace (S i + (j - S i))%nat with j by lia.
Qed.

(** In a list made of a [P] part followed by a [Q] part, no element
    outside [P] comes before an element outside [Q]. *)
Lemma two_blocks_order {A} (P Q : A -> Prop) (l1 l2 : list A) :
  Forall P l1 -> Forall Q l2 ->
  forall x y b a z,
    l1 ++ l2 = x ++ b :: y ++ a :: z -> ~ P b -> ~ Q a -> False.
Proof.
  intros H1 H2. induction H1 as [|c l1 Hc H1 IH]; intros x y b a z Heq Hb Ha.
  - simpl in Heq. rewrite Forall_forall in H2. apply Ha, H2.
    rewrite Heq. apply elem_of_app. right. apply elem_of_cons. right.
    apply elem_of_app. right. apply elem_of_cons. by left.
  - destruct x as [|c' x]; simpl in Heq; injection Heq as -> Heq; [done|].
    by eapply IH.
Qed.

Lemma combined_results_perm l r : combined_results l r ≡ₚ l ++ r.
Proof. apply sort_by_perm. Qed.

Lemma combined_results_sorted l r :
  StronglySorted (key_le Entry.start_time) (combined_results l r).
Proof. apply sort_by_sorted. Qed.

(** Stability: among the entries with one start time, those of the left
    channel come first, then those of the right channel, each group in
    its input order. *)
Lemma combined_results_stable k l r :
  filter (fun e => Entry.start_time e = k) (combined_results l r)
  = filter (fun e => Entry.start_time e = k) l
    ++ filter (fun e => Entry.start_time e = k) r.
Proof.
  unfold combined_results.
  by rewrite (sort_by_filter Entry.start_time), filter_app.
Qed.

Lemma format_results_perm l r : format_results l r ≡ₚ to_utterance <$> (l ++ r).
Proof. unfold format_results. by rewrite combined_results_perm. Qed.

Lemma format_results_lookup_entry l r i :
  format_results l r !! i = to_utterance <$> (combined_results l r !! i).
Proof. unfold format_results. apply list_lookup_fmap. Qed.

Lemma format_results_times l r :
  Utterance.time <$> format_results l r
  = (fun e => float_of_int (Entry.start_time e)) <$> combined_results l r.
Proof. unfold format_results. by rewrite <- list_fmap_compose. Qed.

Lemma format_results_times_sorted l r :
  StronglySorted Z.le (Utterance.time <$> format_results l r).
Proof.
  rewrite format_results_times.
  apply (StronglySorted_fmap _ (key_le Entry.start_time) Z.le).
  - intros a b Hab. by apply float_of_int_mono.
  - apply combined_results_sorted.
Qed.

(** A left-channel entry never follows a right-channel entry of the same
    start time. *)
Lemma combined_results_tie l r i j a b :
  Forall (fun e => Entry.speaker e = 0) l ->
  Forall (fun e => Entry.speaker e = 1) r ->
  combined_results l r !! i = Some a ->
  combined_results l r !! j = Some b ->
  Entry.speaker a = 0 -> Entry.speaker b = 1 ->
  Entry.start_time a = Entry.start_time b ->
  (i < j)%nat.
Proof.
  intros Hl Hr Hi Hj Ha Hb Hk.
  destruct (Nat.lt_trichotomy i j) as [Hlt|[->|Hgt]]; [done| |].
  - rewrite Hi in Hj. injection Hj as ->. lia.
  - exfalso.
    destruct (lookup_split_two _ _ _ _ _ Hgt Hj Hi) as (s1 & s2 & s3 & Hs).
    pose proof (combined_results_stable (Entry.start_time a) l r) as Hst.
    rewrite Hs in Hst.
    rewrite filter_app, filter_cons_True, filter_app, filter_cons_True in Hst
      by done.
    eapply (two_blocks_order
              (fun e => Entry.speaker e = 0) (fun e => Entry.speaker e = 1)).
    + rewrite Forall_forall in Hl |- *. intros e He.
      apply list_elem_of_filter in He as [_ He]. by apply Hl.
    + rewrite Forall_forall in Hr |- *. intros e He.
      apply list_elem_of_filter in He as [_ He]. by apply Hr.
    + symmetry. exact Hst.
    + lia.
    + lia.
Qed.

Lemma extract_both left_results right_results us :
  combine_and_format_results left_results right_results = Return us ->
  exists l r,
    extract_transcript left_results 0 = Return l
    /\ extract_transcript right_results 1 = Return r
    /\ us = format_results l r.
Proof.
  unfold combine_and_format_results. intros H.
  destruct (extract_transcript left_results 0) as [l|]; [|done].
  destruct (extract_transcript right_results 1) as [r|]; [|done].
  simpl in H. injection H as <-. by exists l, r.
Qed.

Lemma entry_of_start_times label alts es d :
  Forall2 (entry_of label) alts es ->
  Forall (fun e => Entry.start_time e <= d) es
  <-> Forall (fun a => forall w ws,
                Alternative.words a = w :: ws -> WordInfo.start_time w <= d)
        alts.
Proof.
  induction 1 as [|a e alts es (w & ws & Hw & ->) _ IH].
  - split; constructor.
  - rewrite !Forall_cons, IH. simpl. split; intros [H1 H2]; split; try done.
    + intros w' ws'. rewrite Hw. by intros [= <- _].
    + by eapply H1.
Qed.

(** * The claims on the transcript *)

Lemma one_alternative_each label results es :
  Forall (fun r => length (SpeechRecognitionResult.alternatives r) = 1%nat)
    results ->
  Forall2 (entry_of label) (all_alternatives results) es ->
  Forall2 (fun r e =>
             exists a, SpeechRecognitionResult.alternatives r = [a]
                       /\ entry_of label a e) results es.
Proof.
  intros Hone. revert es.
  induction Hone as [|r results Hr _ IH]; intros es HF; simpl in HF.
  - inversion HF. constructor.
  - destruct (SpeechRecognitionResult.alternatives r) as [|a [|a' alts]] eqn:Ha;
      [done| |done].
    simpl in HF. inversion HF as [|? e ? es' He HF']; subst.
    constructor; [|by apply IH]. by exists a.
Qed.

(** C2, as amended: [extract_transcript] appends exactly one entry per
    alternative of every segment, in the order of the segments and of
    their alternatives, each with the text of its alternative, the start
    offset of that alternative's first word and the channel label; when
    every segment carries exactly one alternative this is one entry per
    segment, taken from that alternative. *)
Theorem extract_transcript_one_entry_per_alternative
    (results : list SpeechRecognitionResult.t) (speaker_label : Z) :
  Forall (fun a => Alternative.words a <> []) (all_alternatives results) ->
  exists es,
    extract_transcript results speaker_label = Return es
    /\ Forall2 (entry_of speaker_label) (all_alternatives results) es
    /\ (Forall (fun r =>
                  length (SpeechRecognitionResult.alternatives r) = 1%nat)
          results ->
        Forall2 (fun r e =>
                   exists a, SpeechRecognitionResult.alternatives r = [a]
                             /\ entry_of speaker_label a e) results es).
Proof.
  intros Hall.
  destruct (extract_transcript_Return results speaker_label Hall)
    as (es & Hes & HF).
  exists es. split; [done|]. split; [done|].
  intros Hone. by apply one_alternative_each.
Qed.

Lemma extract_transcript_one_entry_per_alternative_witness :
  exists es,
    extract_transcript [segment "Hello" 1000; segment "Bye" 2000] 0 = Return es
    /\ Forall2 (entry_of 0)
         (all_alternatives [segment "Hello" 1000; segment "Bye" 2000]) es
    /\ Forall2 (fun r e =>
                  exists a, SpeechRecognitionResult.alternatives r = [a]
                            /\ entry_of 0 a e)
         [segment "Hello" 1000; segment "Bye" 2000] es.
Proof.
  destruct (extract_transcript_one_entry_per_alternative
              [segment "Hello" 1000; segment "Bye" 2000] 0)
    as (es & Hes & HF & Hone).
  - repeat constructor; discriminate.
  - exists es. split; [exact Hes|]. split; [exact HF|].
    apply Hone. repeat constructor.
Defined.

(** C2, as stated, fails: a segment with two alternatives yields two
    entries, the second taken from the lower-ranked alternative, and a
    segment with no alternative yields none; in neither case is there
    exactly one entry for the segment. *)
Lemma two_alternatives_two_entries :
  extract_transcript [two_alternatives] 0
  = Return [Entry.Build (py "Hello there") 1000 0;
            Entry.Build (py "Hollow") 1200 0]
  /\ ~ (exists es, extract_transcript [two_alternatives] 0 = Return es
                   /\ length es = length [two_alternatives])
  /\ extract_transcript [no_alternatives] 0 = Return []
  /\ ~ (exists es, extract_transcript [no_alternatives] 0 = Return es
                   /\ length es = length [no_alternatives]).
Proof.
  split; [reflexivity|]. split; [|split; [reflexivity|]].
  - intros (es & Hes & Hlen). vm_compute in Hes. injection Hes as <-.
    discriminate Hlen.
  - intros (es & Hes & Hlen). vm_compute in Hes. injection Hes as <-.
    discriminate Hlen.
Qed.

(** C3, as amended: normalisation fails, with Python's [IndexError],
    exactly when some alternative has zero timed words; a segment with
    zero alternatives raises nothing and contributes nothing, the outcome
    being the one obtained without it. *)
Theorem combine_fails_iff_alternative_without_words
    (left_results right_results : list SpeechRecognitionResult.t) :
  (combine_and_format_results left_results right_results = Raise IndexError
   <-> Exists (fun a => Alternative.words a = [])
         (all_alternatives left_results ++ all_alternatives right_results))
  /\ combine_and_format_results
       (filter (fun r => SpeechRecognitionResult.alternatives r <> [])
          left_results)
       (filter (fun r => SpeechRecognitionResult.alternatives r <> [])
          right_results)
     = combine_and_format_results left_results right_results.
Proof.
  split.
  - rewrite Exists_app. unfold combine_and_format_results. split.
    + intros Hraise.
      destruct (words_dichotomy (all_alternatives left_results))
        as [Hl|Hl]; [|by left].
      destruct (words_dichotomy (all_alternatives right_results))
        as [Hr|Hr]; [|by right].
      destruct (extract_transcript_Return left_results 0 Hl) as (l & Hel & _).
      destruct (extract_transcript_Return right_results 1 Hr) as (r & Her & _).
      rewrite Hel, Her in Hraise. done.
    + intros [Hl|Hr].
      * by rewrite (extract_transcript_Raise left_results 0 Hl).
      * rewrite (extract_transcript_Raise right_results 1 Hr).
        by destruct (extract_transcript left_results 0) as [l|[]].
  - unfold combine_and_format_results.
    by rewrite !extract_transcript_filter.
Qed.

Lemma combine_fails_iff_alternative_without_words_witness :
  combine_and_format_results [segment "Hello" 1000; no_words] [] = Raise IndexError.
Proof.
  apply (proj1 (combine_fails_iff_alternative_without_words
                  [segment "Hello" 1000; no_words] [])).
  simpl. right. left. reflexivity.
Defined.

(** C3, as stated, fails: a segment with zero alternatives raises no
    error and is left out of the merged output. *)
Lemma no_alternatives_silently_dropped :
  extract_transcript [no_alternatives] 0 = Return []
  /\ combine_and_format_results [no_alternatives; segment "Hello" 1000] []
     = Return [Utterance.Build 1000 0 (py "Hello")].
Proof. split; reflexivity. Qed.

(** C4: for every pair of per-channel normalised sequences, the times
    of the merged utterances, each the float cast of a start time read
    back as an integer, are non-decreasing: each is at most its
    successor, and at most every later one. *)
Theorem merged_times_non_decreasing (left_results right_results : list Entry.t) :
  Sorted Z.le (Utterance.time <$> format_results left_results right_results)
  /\ forall i j ui uj,
       (i <= j)%nat ->
       format_results left_results right_results !! i = Some ui ->
       format_results left_results right_results !! j = Some uj ->
       Utterance.time ui <= Utterance.time uj.
Proof.
  pose proof (format_results_times_sorted left_results right_results) as Hs.
  split; [by apply StronglySorted_Sorted|].
  intros i j ui uj Hij Hi Hj.
  destruct (decide (i = j)) as [->|Hne].
  - rewrite Hi in Hj. injection Hj as ->. lia.
  - apply (StronglySorted_lookup_le Z.le _ i j _ _ Hs); [lia|..].
    + by rewrite list_lookup_fmap, Hi.
    + by rewrite list_lookup_fmap, Hj.
Qed.

(** C5: in the merged sequence no right-channel (speaker 1) entry
    precedes a left-channel (speaker 0) entry of the same start time; so
    a left entry and a right entry with equal start times are found in
    this order, and so are their utterances.  The output is determined
    by the inputs: two runs agree, and any stable sort by start time
    leads to the same utterances. *)
Theorem merge_ties_left_before_right (left_results right_results : list Entry.t) :
  Forall (fun e => Entry.speaker e = 0) left_results ->
  Forall (fun e => Entry.speaker e = 1) right_results ->
  (forall i j a b,
     combined_results left_results right_results !! i = Some a ->
     combined_results left_results right_results !! j = Some b ->
     Entry.speaker a = 0 -> Entry.speaker b = 1 ->
     Entry.start_time a = Entry.start_time b ->
     (i < j)%nat)
  /\ (forall a b,
        a ∈ left_results -> b ∈ right_results ->
        Entry.start_time a = Entry.start_time b ->
        exists i j,
          (i < j)%nat
          /\ combined_results left_results right_results !! i = Some a
          /\ combined_results left_results right_results !! j = Some b
          /\ format_results left_results right_results !! i
             = Some (to_utterance a)
          /\ format_results left_results right_results !! j
             = Some (to_utterance b))
  /\ (forall out1 out2,
        out1 = format_results left_results right_results ->
        out2 = format_results left_results right_results ->
        out1 = out2)
  /\ (forall sorted,
        StronglySorted (key_le Entry.start_time) sorted ->
        (forall k,
           filter (fun e => Entry.start_time e = k) sorted
           = filter (fun e => Entry.start_time e = k)
               (left_results ++ right_results)) ->
        to_utterance <$> sorted = format_results left_results right_results).
Proof.
  intros Hl0 Hr1.
  pose proof (fun i j a b =>
    combined_results_tie left_results right_results i j a b Hl0 Hr1) as Hpos.
  split; [exact Hpos|split; [|split]].
  - intros a b Ha Hb Hk.
    assert (a ∈ combined_results left_results right_results) as Hia.
    { rewrite combined_results_perm. apply elem_of_app. by left. }
    assert (b ∈ combined_results left_results right_results) as Hib.
    { rewrite combined_results_perm. apply elem_of_app. by right. }
    apply list_elem_of_lookup_1 in Hia as [i Hi].
    apply list_elem_of_lookup_1 in Hib as [j Hj].
    exists i, j.
    rewrite !format_results_lookup_entry, Hi, Hj.
    rewrite Forall_forall in Hl0, Hr1.
    repeat split; try done.
    apply (Hpos i j a b); auto.
  - intros out1 out2 -> ->. reflexivity.
  - intros sorted Hs Hf. unfold format_results, combined_results.
    f_equal. by apply sort_by_unique.
Qed.

Lemma merge_ties_left_before_right_witness :
  exists i j,
    (i < j)%nat
    /\ combined_results left_entries right_entries !! i
       = Some (Entry.Build (py " I see ") 500 0)
    /\ combined_results left_entries right_entries !! j
       = Some (Entry.Build (py "Hi") 500 1)
    /\ format_results left_entries right_entries !! i
       = Some (to_utterance (Entry.Build (py " I see ") 500 0))
    /\ format_results left_entries right_entries !! j
       = Some (to_utterance (Entry.Build (py "Hi") 500 1)).
Proof.
  apply (proj1 (proj2 (merge_ties_left_before_right left_entries right_entries
                         ltac:(repeat constructor)
                         ltac:(repeat constructor)))).
  - right. left.
  - left.
  - reflexivity.
Defined.

Lemma extract_entries left_results right_results us :
  int32_results left_results -> int32_results right_results ->
  combine_and_format_results left_results right_results = Return us ->
  exists l r,
    extract_transcript left_results 0 = Return l
    /\ extract_transcript right_results 1 = Return r
    /\ Forall2 (entry_of 0) (all_alternatives left_results) l
    /\ Forall2 (entry_of 1) (all_alternatives right_results) r
    /\ int32_entries l /\ int32_entries r
    /\ us = format_results l r.
Proof.
  intros HL HR Hus.
  destruct (extract_both _ _ _ Hus) as (l & r & Hl & Hr & ->).
  destruct (extract_transcript_inv _ _ _ Hl) as [_ HFl].
  destruct (extract_transcript_inv _ _ _ Hr) as [_ HFr].
  assert (int32_entries l) as Hil.
  { eapply entry_of_int32; [apply int32_all_alternatives, HL | exact HFl]. }
  assert (int32_entries r) as Hir.
  { eapply entry_of_int32; [apply int32_all_alternatives, HR | exact HFr]. }
  by exists l, r.
Qed.

(** The ordering invariant, for the Transcript built by a run. *)
Lemma build_transcript_times_sorted left_results right_results duration t :
  build_transcript left_results right_results duration = Return t ->
  Sorted Z.le (Utterance.time <$> Transcript.utterances t).
Proof.
  intros Ht. unfold build_transcript in Ht.
  destruct (combine_and_format_results left_results right_results)
    as [us|] eqn:Hus; [|done].
  simpl in Ht. injection Ht as <-. simpl.
  destruct (extract_both _ _ _ Hus) as (l & r & _ & _ & ->).
  apply StronglySorted_Sorted, format_results_times_sorted.
Qed.

(** The run returns a Transcript whenever every alternative has a timed
    word. *)
Lemma build_transcript_Return left_results right_results duration :
  Forall (fun a => Alternative.words a <> [])
    (all_alternatives left_results ++ all_alternatives right_results) ->
  exists l r,
    extract_transcript left_results 0 = Return l
    /\ extract_transcript right_results 1 = Return r
    /\ build_transcript left_results right_results duration
       = Return (Transcript.Build (format_results l r) duration).
Proof.
  intros [Hl Hr]%Forall_app.
  destruct (extract_transcript_Return left_results 0 Hl) as (l & Hel & _).
  destruct (extract_transcript_Return right_results 1 Hr) as (r & Her & _).
  exists l, r. split; [done|]. split; [done|].
  unfold build_transcript, combine_and_format_results.
  by rewrite Hel, Her.
Qed.

(** The two scenarios of the specification. *)
Example scenario_two_channels :
  build_transcript [segment "Hello" 1000] [segment "Hi" 500] 5000
  = Return (Transcript.Build
              [Utterance.Build 500 1 (py "Hi");
               Utterance.Build 1000 0 (py "Hello")] 5000).
Proof. reflexivity. Qed.

Example scenario_both_empty :
  build_transcript [] [] 3000 = Return (Transcript.Build [] 3000).
Proof. reflexivity. Qed.

(** C6, as amended: the Transcript keeps the supplied duration and the
    merged utterances unchanged, with no check relating them; every
    utterance's time is at most [call_duration] exactly when the first
    word of every alternative starts no later than the supplied
    duration. *)
Theorem transcript_times_within_duration_iff
    (left_results right_results : list SpeechRecognitionResult.t)
    (duration : Z) (t : Transcript.t) :
  int32_results left_results -> int32_results right_results ->
  build_transcript left_results right_results duration = Return t ->
  Transcript.call_duration t = duration
  /\ combine_and_format_results left_results right_results
     = Return (Transcript.utterances t)
  /\ (Forall (fun u => Utterance.time u <= Transcript.call_duration t)
        (Transcript.utterances t)
      <-> Forall (fun a => forall w ws,
                    Alternative.words a = w :: ws ->
                    WordInfo.start_time w <= duration)
            (all_alternatives left_results ++ all_alternatives right_results)).
Proof.
  intros HL HR Ht. unfold build_transcript in Ht.
  destruct (combine_and_format_results left_results right_results)
    as [us|] eqn:Hus; [|done].
  simpl in Ht. injection Ht as <-. simpl.
  split; [done|]. split; [done|].
  destruct (extract_entries _ _ _ HL HR Hus)
    as (l & r & _ & _ & HFl & HFr & Hl & Hr & ->).
  rewrite format_results_perm, Forall_fmap, !Forall_app.
  rewrite <- (entry_of_start_times 0 _ l duration HFl).
  rewrite <- (entry_of_start_times 1 _ r duration HFr).
  assert (forall es, int32_entries es ->
            Forall ((fun u => Utterance.time u <= duration) ∘ to_utterance) es
            <-> Forall (fun e => Entry.start_time e <= duration) es) as Hes.
  { intros es Hin. rewrite !Forall_forall. unfold int32_entries in Hin.
    rewrite Forall_forall in Hin.
    split; intros H e He; specialize (H e He); specialize (Hin e He);
      unfold compose in *; by rewrite to_utterance_int32 in *. }
  by rewrite (Hes l Hl), (Hes r Hr).
Qed.

Lemma transcript_times_within_duration_iff_witness :
  Transcript.call_duration
    (Transcript.Build
       [Utterance.Build 500 1 (py "Hi"); Utterance.Build 1000 0 (py "Hello")]
       5000) = 5000
  /\ combine_and_format_results [segment "Hello" 1000] [segment "Hi" 500]
     = Return
         (Transcript.utterances
            (Transcript.Build
               [Utterance.Build 500 1 (py "Hi");
                Utterance.Build 1000 0 (py "Hello")] 5000))
  /\ (Forall (fun u => Utterance.time u <= 5000)
        [Utterance.Build 500 1 (py "Hi"); Utterance.Build 1000 0 (py "Hello")]
      <-> Forall (fun a => forall w ws,
                    Alternative.words a = w :: ws ->
                    WordInfo.start_time w <= 5000)
            (all_alternatives [segment "Hello" 1000]
             ++ all_alternatives [segment "Hi" 500])).
Proof.
  apply (transcript_times_within_duration_iff
           [segment "Hello" 1000] [segment "Hi" 500] 5000
           (Transcript.Build
              [Utterance.Build 500 1 (py "Hi");
               Utterance.Build 1000 0 (py "Hello")] 5000)).
  - repeat constructor; simpl; lia.
  - repeat constructor; simpl; lia.
  - reflexivity.
Defined.

(** C6, as stated, fails: with a word starting at 1000 ms and a supplied
    duration of 500 ms the Transcript is built all the same, and holds an
    utterance later than its [call_duration]. *)
Lemma utterance_after_call_duration :
  build_transcript [segment "Hello" 1000] [] 500
  = Return (Transcript.Build [Utterance.Build 1000 0 (py "Hello")] 500)
  /\ ~ Forall (fun u => Utterance.time u <= 500)
         [Utterance.Build 1000 0 (py "Hello")].
Proof.
  split; [reflexivity|].
  intros H. apply Forall_cons in H as [H _]. simpl in H. lia.
Qed.

(** C10: the merged utterance list has as many elements as the two
    normalised sequences together and is a permutation of their
    utterances: every entry appears exactly once, as the Utterance with
    the entry's speaker label, with its start time cast through float to
    an integer (the start time itself for an [int32] offset) and with
    its text stripped of leading and trailing whitespace; and this list
    is what [combine_and_format_results] returns, the left entries
    labelled 0 and the right ones 1. *)
Theorem merged_utterances_permutation (l r : list Entry.t) :
  length (format_results l r) = (length l + length r)%nat
  /\ format_results l r
     ≡ₚ (fun e =>
           Utterance.Build
             (int_of_integral_float (float_of_int (Entry.start_time e)))
             (Entry.speaker e)
             (strip (Entry.transcript e))) <$> (l ++ r)
  /\ (forall z, in_int32 z -> int_of_integral_float (float_of_int z) = z)
  /\ (forall s, exists pre post,
         s = pre ++ strip s ++ post
         /\ Forall (fun c => is_space c = true) pre
         /\ Forall (fun c => is_space c = true) post
         /\ (forall c rest, strip s = c :: rest -> is_space c = false)
         /\ (forall c rest, strip s = rest ++ [c] -> is_space c = false))
  /\ (forall left_results right_results,
        extract_transcript left_results 0 = Return l ->
        extract_transcript right_results 1 = Return r ->
        combine_and_format_results left_results right_results
        = Return (format_results l r)
        /\ Forall (fun e => Entry.speaker e = 0) l
        /\ Forall (fun e => Entry.speaker e = 1) r).
Proof.
  split; [by rewrite format_results_perm, length_fmap, length_app|].
  split; [apply format_results_perm|].
  split; [apply float_of_int32|].
  split; [apply strip_spec|].
  intros left_results right_results Hl Hr.
  destruct (extract_transcript_inv _ _ _ Hl) as [_ HFl].
  destruct (extract_transcript_inv _ _ _ Hr) as [_ HFr].
  split; [|split; by eapply entry_of_speaker].
  unfold combine_and_format_results. by rewrite Hl, Hr.
Qed.

Lemma merged_utterances_permutation_witness :
  combine_and_format_results
    [segment " Hello " 1000; segment "Bye" 2000] [segment "Hi" 500]
  = Return
      (format_results
         [Entry.Build (py " Hello ") 1000 0; Entry.Build (py "Bye") 2000 0]
         [Entry.Build (py "Hi") 500 1])
  /\ Forall (fun e => Entry.speaker e = 0)
       [Entry.Build (py " Hello ") 1000 0; Entry.Build (py "Bye") 2000 0]
  /\ Forall (fun e => Entry.speaker e = 1) [Entry.Build (py "Hi") 500 1].
Proof.
  apply (merged_utterances_permutation
           [Entry.Build (py " Hello ") 1000 0; Entry.Build (py "Bye") 2000 0]
           [Entry.Build (py "Hi") 500 1]);
    reflexivity.
Defined.

(** ** Facts on validation *)

Lemma reports_Invalid {A} (r : validated A) e :
  reports r e -> exists errors, r = Invalid errors /\ e ∈ errors.
Proof. destruct r as [a|errors]; [done|]. intros He. by exists errors. Qed.

Lemma vap_reports_l {A B} (f : validated (A -> B)) (x : validated A) e :
  reports f e -> reports (f <*> x) e.
Proof.
  destruct f as [f|e1]; [done|]. destruct x as [a|e2]; simpl; [done|].
  intros He. apply elem_of_app. by left.
Qed.

Lemma vap_reports_r {A B} (f : validated (A -> B)) (x : validated A) e :
  reports x e -> reports (f <*> x) e.
Proof.
  destruct x as [a|e2]; [done|]. destruct f as [f|e1]; simpl; [done|].
  intros He. apply elem_of_app. by right.
Qed.

Lemma field_missing {A} (validate : json -> validated A) name members :
  dict_get name members = None ->
  reports (field validate name members) ([Field name], Missing).
Proof. intros Hget. unfold field. rewrite Hget. simpl. by left. Qed.

Section RoundTrip.
Variable lax_int : json -> option Z.

Lemma validate_dump_Utterance u :
  validate_Utterance lax_int (dump_Utterance u) = Valid u.
Proof. by destruct u. Qed.

Lemma validate_dump_Utterances i us :
  validate_items (validate_Utterance lax_int) i (dump_Utterance <$> us)
  = Valid us.
Proof.
  revert i. induction us as [|u us IH]; intros i; [done|].
  rewrite fmap_cons. cbn [validate_items].
  by rewrite validate_dump_Utterance, IH.
Qed.

Lemma validate_dump_Transcript t :
  validate_Transcript lax_int (dump_Transcript t) = Valid t.
Proof.
  destruct t as [us d].
  unfold validate_Transcript, dump_Transcript, validate_model, field.
  change (dict_get (py "utterances") _)
    with (Some (JArr (dump_Utterance <$> us))).
  change (dict_get (py "call_duration") _) with (Some (JInt d)).
  unfold validate_list. by rewrite validate_dump_Utterances.
Qed.

Lemma validate_dump_Entities e :
  validate_Entities lax_int (dump_Entities e) = Valid e.
Proof. by destruct e as [[?|] [?|] ? ? [?|] ? ?]. Qed.

Lemma validate_dump_ScoreMetric m :
  validate_ScoreMetric lax_int (dump_ScoreMetric m) = Valid m.
Proof. by destruct m. Qed.

Lemma validate_dump_BoolMetric m :
  validate_BoolMetric lax_int (dump_BoolMetric m) = Valid m.
Proof. by destruct m. Qed.

Lemma validate_dump_StringMetric m :
  validate_StringMetric (dump_StringMetric m) = Valid m.
Proof. by destruct m. Qed.

Lemma validate_dump_Evaluation e :
  validate_Evaluation lax_int (dump_Evaluation e) = Valid e.
Proof.
  destruct e as [[] [] [] [] [] [] [] [] [] [] [] [] []]. reflexivity.
Qed.

Lemma validate_dump_Result r :
  validate_Result lax_int (dump_Result r) = Valid r.
Proof.
  destruct r as [t e v].
  unfold validate_Result, dump_Result, validate_model, field.
  change (dict_get (py "transcript") _) with (Some (dump_Transcript t)).
  change (dict_get (py "entities") _) with (Some (dump_Entities e)).
  change (dict_get (py "evaluation") _) with (Some (dump_Evaluation v)).
  cbv beta iota.
  by rewrite validate_dump_Transcript, validate_dump_Entities,
    validate_dump_Evaluation.
Qed.
End RoundTrip.

(** * The claims on the schemas *)

(** C1, as amended: validation of an Evaluation response checks that the
    value of a ScoreMetric and of a BoolMetric is an integer and checks
    no range: every integer is accepted and kept, for
    [customer_sentiment] as for the boolean metrics, so that every
    Evaluation, whatever its integers, is parsed back from its JSON. *)
Theorem metric_values_accept_every_integer
    (lax_int : json -> option Z) :
  (forall z why,
     validate_ScoreMetric lax_int
       (JObj [(py "value", JInt z); (py "justification", JStr why)])
     = Valid (ScoreMetric.Build z why))
  /\ (forall z why,
        validate_BoolMetric lax_int
          (JObj [(py "value", JInt z); (py "justification", JStr why)])
        = Valid (BoolMetric.Build z why))
  /\ (forall e : Evaluation.t,
        validate_Evaluation lax_int (dump_Evaluation e) = Valid e).
Proof.
  split; [done|]. split; [done|]. apply validate_dump_Evaluation.
Qed.

(** C1, as stated, fails: the response with [customer_sentiment.value =
    11] is parsed, the value 11 kept; so is a response with a boolean
    metric of value 2. *)
Lemma sentiment_11_accepted :
  (forall lax_int,
     validate_Evaluation lax_int (JObj (evaluation_members 1 11))
     = Valid (evaluation_of 1 11))
  /\ ScoreMetric.value (Evaluation.customer_sentiment (evaluation_of 1 11)) = 11
  /\ ~ (1 <= 11 <= 10)
  /\ (forall lax_int,
        validate_Evaluation lax_int (JObj (evaluation_members 2 7))
        = Valid (evaluation_of 2 7))
  /\ BoolMetric.value (Evaluation.greeting (evaluation_of 2 7)) = 2.
Proof.
  split; [reflexivity|]. split; [reflexivity|]. split; [lia|].
  split; reflexivity.
Qed.

(** C7, as amended: validation of an Entities payload checks that
    [agent_speaker] and [customer_speaker] are integers and nothing
    more: any two integers are accepted and kept, be they equal or
    outside of 0 and 1. *)
Theorem Entities_accepts_any_speakers (lax_int : json -> option Z)
    (agent_name customer_name reason : option str) (topic subtopic : str)
    (agent_speaker customer_speaker : Z) :
  validate_Entities lax_int
    (JObj [(py "agent_name", dump_optional_str agent_name);
           (py "customer_name", dump_optional_str customer_name);
           (py "agent_speaker", JInt agent_speaker);
           (py "customer_speaker", JInt customer_speaker);
           (py "reason", dump_optional_str reason);
           (py "topic", JStr topic);
           (py "subtopic", JStr subtopic)])
  = Valid (Entities.Build agent_name customer_name agent_speaker
             customer_speaker reason topic subtopic).
Proof.
  apply (validate_dump_Entities lax_int
           (Entities.Build agent_name customer_name agent_speaker
              customer_speaker reason topic subtopic)).
Qed.

(** C7, as stated, fails: a payload whose agent and customer are both
    speaker 0 is accepted, and so is one with speaker ids 5 and 7. *)
Lemma equal_speakers_accepted :
  (forall lax_int,
     validate_Entities lax_int (entities_payload 0 0) = Valid (entities_of 0 0))
  /\ Entities.agent_speaker (entities_of 0 0)
     = Entities.customer_speaker (entities_of 0 0)
  /\ (forall lax_int,
        validate_Entities lax_int (entities_payload 5 7)
        = Valid (entities_of 5 7)).
Proof. split; [reflexivity|]. split; reflexivity. Qed.

(** C8: a response that is an object lacking one of the thirteen fields
    of Evaluation is not parsed: validation fails, reporting that field
    as missing, and no Evaluation is produced, hence none with a default
    in place of the field. *)
Theorem Evaluation_missing_field_rejected (lax_int : json -> option Z)
    (members : list (str * json)) (name : str) :
  name ∈ Evaluation_fields ->
  dict_get name members = None ->
  (exists errors,
     validate_Evaluation lax_int (JObj members) = Invalid errors
     /\ ([Field name], Missing) ∈ errors)
  /\ forall e, validate_Evaluation lax_int (JObj members) <> Valid e.
Proof.
  intros Hname Hget.
  assert (reports (validate_Evaluation lax_int (JObj members))
            ([Field name], Missing)) as Hrep.
  { unfold validate_Evaluation, validate_model, Evaluation_fields in *.
    repeat (apply elem_of_cons in Hname as [->|Hname];
            [repeat first
               [ apply vap_reports_r; by apply field_missing
               | apply vap_reports_l ] |]).
    by apply elem_of_nil in Hname. }
  apply reports_Invalid in Hrep as (errors & Herr & Hin).
  split; [by exists errors|]. intros e. by rewrite Herr.
Qed.

Lemma Evaluation_missing_field_rejected_witness :
  (exists errors,
     validate_Evaluation (fun _ => None)
       (JObj (without (py "tone") (evaluation_members 1 7))) = Invalid errors
     /\ ([Field (py "tone")], Missing) ∈ errors)
  /\ forall e,
       validate_Evaluation (fun _ => None)
         (JObj (without (py "tone") (evaluation_members 1 7))) <> Valid e.
Proof.
  apply (Evaluation_missing_field_rejected (fun _ => None)
           (without (py "tone") (evaluation_members 1 7)) (py "tone")).
  - unfold Evaluation_fields. do 5 right. left.
  - reflexivity.
Defined.

(** * Further properties of the transcript code *)

(** ** More on the stable sort *)

Section SortByMore.
Context {A : Type} (key : A -> Z).

Lemma sort_by_sorted_id (l : list A) :
  StronglySorted (key_le key) l -> sort_by key l = l.
Proof. intros Hs. symmetry. by apply sort_by_unique. Qed.

Lemma StronglySorted_filter_keep (P : A -> Prop) `{!forall x, Decision (P x)}
    (l : list A) :
  StronglySorted (key_le key) l -> StronglySorted (key_le key) (filter P l).
Proof.
  induction 1 as [|x l Hs IH Hx]; [constructor|].
  rewrite filter_cons. case_decide; [|done].
  constructor; [done|].
  rewrite Forall_forall in Hx |- *. intros y Hy.
  apply list_elem_of_filter in Hy as [_ Hy]. by apply Hx.
Qed.

Lemma filter_filter_swap (P Q : A -> Prop)
    `{!forall x, Decision (P x)} `{!forall x, Decision (Q x)} (l : list A) :
  filter P (filter Q l) = filter Q (filter P l).
Proof.
  induction l as [|x l IH]; [done|].
  rewrite !(filter_cons _ x l).
  destruct (decide (Q x)), (decide (P x));
    rewrite ?filter_cons_True, ?filter_cons_False by done; by rewrite IH.
Qed.

(** Sorting and then keeping the elements with [P] is keeping them and
    then sorting. *)
Lemma sort_by_filter_pred (P : A -> Prop) `{!forall x, Decision (P x)}
    (l : list A) :
  filter P (sort_by key l) = sort_by key (filter P l).
Proof.
  apply sort_by_unique.
  - apply StronglySorted_filter_keep, sort_by_sorted.
  - intros k. by rewrite filter_filter_swap, sort_by_filter, filter_filter_swap.
Qed.
End SortByMore.

Lemma filter_all {A} (P : A -> Prop) `{!forall x, Decision (P x)} (l : list A) :
  Forall P l -> filter P l = l.
Proof.
  induction 1 as [|x l Hx _ IH]; [done|].
  by rewrite filter_cons_True, IH.
Qed.

Lemma filter_none {A} (P : A -> Prop) `{!forall x, Decision (P x)} (l : list A) :
  Forall (fun x => ~ P x) l -> filter P l = [].
Proof.
  induction 1 as [|x l Hx _ IH]; [done|].
  by rewrite filter_cons_False.
Qed.

Lemma filter_fmap_comm {A B} (f : A -> B) (P : B -> Prop) (Q : A -> Prop)
    `{!forall y, Decision (P y)} `{!forall x, Decision (Q x)} (l : list A) :
  (forall x, P (f x) <-> Q x) ->
  filter P (f <$> l) = f <$> filter Q l.
Proof.
  intros HPQ. induction l as [|x l IH]; [done|].
  rewrite fmap_cons, !filter_cons.
  destruct (decide (P (f x))) as [HP|HP], (decide (Q x)) as [HQ|HQ].
  - by rewrite fmap_cons, IH.
  - by apply HPQ in HP.
  - by apply HPQ in HQ.
  - done.
Qed.

(** ** [extract_transcript] over a concatenation *)

Lemma extract_alternatives_acc alts label acc :
  extract_alternatives alts label acc
  = exc_bind (extract_alternatives alts label [])
      (fun es => Return (acc ++ es)).
Proof.
  revert acc. induction alts as [|a alts IH]; intros acc; simpl.
  - by rewrite app_nil_r.
  - destruct (first_word_start_time a) as [st|e]; simpl; [|done].
    rewrite (IH (acc ++ _)), (IH [_]).
    destruct (extract_alternatives alts label []); simpl; [|done].
    by rewrite <- app_assoc.
Qed.

Lemma all_alternatives_app rs1 rs2 :
  all_alternatives (rs1 ++ rs2) = all_alternatives rs1 ++ all_alternatives rs2.
Proof.
  induction rs1 as [|r rs1 IH]; [done|]. simpl. by rewrite IH, app_assoc.
Qed.

(** X1: normalising a sequence of segments cut in two is normalising
    each part and appending the entries; it fails as soon as the first
    part fails, otherwise as the second does. *)
Theorem extract_transcript_app
    (results1 results2 : list SpeechRecognitionResult.t) (speaker_label : Z) :
  extract_transcript (results1 ++ results2) speaker_label
  = (es1 <- extract_transcript results1 speaker_label ;;
     es2 <- extract_transcript results2 speaker_label ;;
     Return (es1 ++ es2)).
Proof.
  unfold extract_transcript.
  rewrite !extract_results_flat, all_alternatives_app, extract_alternatives_app.
  destruct (extract_alternatives (all_alternatives results1) speaker_label [])
    as [es1|e]; simpl; [|done].
  apply extract_alternatives_acc.
Qed.

Lemma first_word_only_alternatives results :
  all_alternatives (first_word_only results)
  = (fun a => Alternative.Build (Alternative.transcript a)
                (take 1 (Alternative.words a))) <$> all_alternatives results.
Proof.
  induction results as [|r results IH]; [done|].
  unfold first_word_only in *. rewrite fmap_cons. simpl.
  by rewrite IH, fmap_app.
Qed.

Lemma extract_transcript_first_word_only results label :
  extract_transcript (first_word_only results) label
  = extract_transcript results label.
Proof.
  unfold extract_transcript.
  rewrite !extract_results_flat, first_word_only_alternatives.
  generalize (@nil Entry.t) as acc.
  induction (all_alternatives results) as [|a alts IH]; intros acc; [done|].
  rewrite fmap_cons. simpl.
  assert (first_word_start_time
            (Alternative.Build (Alternative.transcript a)
               (take 1 (Alternative.words a)))
          = first_word_start_time a) as ->.
  { unfold first_word_start_time. simpl. by destruct (Alternative.words a). }
  destruct (first_word_start_time a); simpl; [apply IH|done].
Qed.

(** X2: of the timed words of an alternative only the first is read:
    with every alternative cut down to its first word the merged
    utterances, or the failure, are the same. *)
Theorem combine_reads_first_word_only
    (left_results right_results : list SpeechRecognitionResult.t) :
  combine_and_format_results
    (first_word_only left_results) (first_word_only right_results)
  = combine_and_format_results left_results right_results.
Proof.
  unfold combine_and_format_results.
  by rewrite !extract_transcript_first_word_only.
Qed.

(** ** The merge as an interleaving *)

Lemma combined_results_channel (l r : list Entry.t) (x y : Z) :
  x <> y ->
  Forall (fun e => Entry.speaker e = x) l ->
  Forall (fun e => Entry.speaker e = y) r ->
  filter (fun e => Entry.speaker e = x) (combined_results l r)
  = sort_by Entry.start_time l
  /\ filter (fun e => Entry.speaker e = y) (combined_results l r)
     = sort_by Entry.start_time r.
Proof.
  intros Hxy Hl Hr. unfold combined_results.
  rewrite !(sort_by_filter_pred Entry.start_time), !filter_app.
  rewrite (filter_all _ l Hl), (filter_all _ r Hr).
  rewrite (filter_none (fun e => Entry.speaker e = x) r),
          (filter_none (fun e => Entry.speaker e = y) l).
  - by rewrite app_nil_r.
  - eapply Forall_impl; [exact Hl|]. simpl. intros e -> Heq. by apply Hxy.
  - eapply Forall_impl; [exact Hr|]. simpl. intros e -> Heq. by apply Hxy.
Qed.

Lemma format_results_channel (l r : list Entry.t) (x : Z) :
  filter (fun u => Utterance.speaker u = x) (format_results l r)
  = to_utterance <$> filter (fun e => Entry.speaker e = x) (combined_results l r).
Proof. unfold format_results. by apply filter_fmap_comm. Qed.

(** X3: the merge interleaves the two channels without reordering
    either: the utterances of speaker 0 are those of the left channel in
    the order of their start times (entries of equal start time in input
    order), and likewise for speaker 1 and the right channel; a channel
    given in chronological order is found again as it was. *)
Theorem merge_keeps_channel_order (left_results right_results : list Entry.t) :
  Forall (fun e => Entry.speaker e = 0) left_results ->
  Forall (fun e => Entry.speaker e = 1) right_results ->
  filter (fun u => Utterance.speaker u = 0)
    (format_results left_results right_results)
  = to_utterance <$> sort_by Entry.start_time left_results
  /\ filter (fun u => Utterance.speaker u = 1)
       (format_results left_results right_results)
     = to_utterance <$> sort_by Entry.start_time right_results
  /\ (StronglySorted (key_le Entry.start_time) left_results ->
      filter (fun u => Utterance.speaker u = 0)
        (format_results left_results right_results)
      = to_utterance <$> left_results)
  /\ (StronglySorted (key_le Entry.start_time) right_results ->
      filter (fun u => Utterance.speaker u = 1)
        (format_results left_results right_results)
      = to_utterance <$> right_results).
Proof.
  intros Hl Hr.
  destruct (combined_results_channel left_results right_results 0 1
              ltac:(done) Hl Hr) as [H0 H1].
  rewrite !format_results_channel, H0, H1.
  split; [done|]. split; [done|].
  split; intros Hs; by rewrite sort_by_sorted_id.
Qed.

Lemma merge_keeps_channel_order_witness :
  filter (fun u => Utterance.speaker u = 0)
    (format_results left_entries right_entries)
  = to_utterance <$> sort_by Entry.start_time left_entries
  /\ filter (fun u => Utterance.speaker u = 1)
       (format_results left_entries right_entries)
     = to_utterance <$> right_entries.
Proof.
  destruct (merge_keeps_channel_order left_entries right_entries
              ltac:(repeat constructor) ltac:(repeat constructor))
    as (H0 & _ & _ & H1).
  split; [exact H0|]. apply H1. repeat constructor.
Defined.

(** X4: when the left entries followed by the right entries already are
    in the order of their start times, the merge returns them in this
    order, left channel first; and merging the merged entries once more,
    as one channel, changes nothing. *)
Theorem merge_of_chronological_input (left_results right_results : list Entry.t) :
  StronglySorted (key_le Entry.start_time) (left_results ++ right_results) ->
  combined_results left_results right_results = left_results ++ right_results
  /\ format_results left_results right_results
     = (to_utterance <$> left_results) ++ (to_utterance <$> right_results)
  /\ combined_results (combined_results left_results right_results) []
     = left_results ++ right_results.
Proof.
  intros Hs.
  assert (combined_results left_results right_results
          = left_results ++ right_results) as Hc.
  { by apply sort_by_sorted_id. }
  split; [done|]. split.
  - unfold format_results. by rewrite Hc, fmap_app.
  - rewrite Hc. unfold combined_results. rewrite app_nil_r.
    by apply sort_by_sorted_id.
Qed.

Lemma merge_of_chronological_input_witness :
  combined_results [Entry.Build (py "Hi") 500 0; Entry.Build (py "Yes") 900 0]
    [Entry.Build (py "Hello") 900 1]
  = [Entry.Build (py "Hi") 500 0; Entry.Build (py "Yes") 900 0]
    ++ [Entry.Build (py "Hello") 900 1]
  /\ format_results
       [Entry.Build (py "Hi") 500 0; Entry.Build (py "Yes") 900 0]
       [Entry.Build (py "Hello") 900 1]
     = (to_utterance
          <$> [Entry.Build (py "Hi") 500 0; Entry.Build (py "Yes") 900 0])
       ++ (to_utterance <$> [Entry.Build (py "Hello") 900 1])
  /\ combined_results
       (combined_results
          [Entry.Build (py "Hi") 500 0; Entry.Build (py "Yes") 900 0]
          [Entry.Build (py "Hello") 900 1]) []
     = [Entry.Build (py "Hi") 500 0; Entry.Build (py "Yes") 900 0]
       ++ [Entry.Build (py "Hello") 900 1].
Proof.
  apply (merge_of_chronological_input
           [Entry.Build (py "Hi") 500 0; Entry.Build (py "Yes") 900 0]
           [Entry.Build (py "Hello") 900 1]).
  repeat constructor; unfold key_le; simpl; lia.
Defined.

(** The merged entries themselves are idempotent under the merge. *)
Lemma combined_results_idempotent l r :
  combined_results (combined_results l r) [] = combined_results l r.
Proof.
  unfold combined_results at 1. rewrite app_nil_r.
  apply sort_by_sorted_id, combined_results_sorted.
Qed.

(** ** What the utterances look like *)

Lemma lstrip_fixed s :
  (forall c rest, s = c :: rest -> is_space c = false) -> lstrip s = s.
Proof.
  destruct s as [|c s]; [done|]. intros H. simpl.
  by rewrite (H c s eq_refl).
Qed.

Lemma strip_idempotent s : strip (strip s) = strip s.
Proof.
  destruct (strip_spec s) as (pre & post & _ & _ & _ & Hhd & Hlast).
  unfold strip at 1. rewrite (lstrip_fixed (strip s) Hhd).
  unfold rstrip. rewrite lstrip_fixed; [apply rev_involutive|].
  intros c rest Hrev. apply (Hlast c (rev rest)).
  apply (f_equal (@rev N)) in Hrev.
  by rewrite rev_involutive in Hrev.
Qed.

Lemma strip_all_space s :
  Forall (fun c => is_space c = true) s -> strip s = [].
Proof.
  intros Hs.
  assert (lstrip s = []) as Hl.
  { induction Hs as [|c s Hc _ IH]; [done|]. simpl. by rewrite Hc. }
  unfold strip. by rewrite Hl.
Qed.

(** X5: the spoken words of every merged utterance are stripped: they
    neither begin nor end with a whitespace character and stripping them
    again changes nothing.  An alternative whose text is all whitespace
    is kept, as an utterance with empty spoken words. *)
Theorem utterances_are_stripped
    (left_results right_results : list SpeechRecognitionResult.t)
    (utterances : list Utterance.t) :
  combine_and_format_results left_results right_results = Return utterances ->
  Forall (fun u =>
            strip (Utterance.spoken_words u) = Utterance.spoken_words u
            /\ (forall c rest,
                  Utterance.spoken_words u = c :: rest -> is_space c = false)
            /\ (forall c rest,
                  Utterance.spoken_words u = rest ++ [c] ->
                  is_space c = false))
    utterances
  /\ length utterances
     = length (all_alternatives left_results ++ all_alternatives right_results)
  /\ forall e, Forall (fun c => is_space c = true) (Entry.transcript e) ->
               Utterance.spoken_words (to_utterance e) = [].
Proof.
  intros Hus.
  destruct (extract_both _ _ _ Hus) as (l & r & Hl & Hr & ->).
  split; [|split].
  - unfold format_results. apply Forall_fmap, Forall_forall.
    intros e _. unfold compose, to_utterance. simpl.
    destruct (strip_spec (Entry.transcript e))
      as (pre & post & _ & _ & _ & Hhd & Hlast).
    split; [apply strip_idempotent|]. by split.
  - destruct (extract_transcript_inv _ _ _ Hl) as [_ HFl].
    destruct (extract_transcript_inv _ _ _ Hr) as [_ HFr].
    rewrite format_results_perm, length_fmap, !length_app.
    by rewrite (Forall2_length _ _ _ HFl), (Forall2_length _ _ _ HFr).
  - intros e He. unfold to_utterance. simpl. by apply strip_all_space.
Qed.

Lemma utterances_are_stripped_witness :
  Forall (fun u =>
            strip (Utterance.spoken_words u) = Utterance.spoken_words u
            /\ (forall c rest,
                  Utterance.spoken_words u = c :: rest -> is_space c = false)
            /\ (forall c rest,
                  Utterance.spoken_words u = rest ++ [c] ->
                  is_space c = false))
    [Utterance.Build 500 1 []; Utterance.Build 1000 0 (py "Hello you")]
  /\ length [Utterance.Build 500 1 [];
             Utterance.Build 1000 0 (py "Hello you")]
     = length (all_alternatives [segment " Hello you " 1000]
               ++ all_alternatives [segment "   " 500])
  /\ forall e, Forall (fun c => is_space c = true) (Entry.transcript e) ->
               Utterance.spoken_words (to_utterance e) = [].
Proof.
  apply (utterances_are_stripped
           [segment " Hello you " 1000] [segment "   " 500]).
  reflexivity.
Defined.

(** X6: every merged utterance has speaker 0 or 1; those of speaker 0
    are as many as the alternatives of the left channel, those of
    speaker 1 as many as the alternatives of the right channel. *)
Theorem utterance_speakers
    (left_results right_results : list SpeechRecognitionResult.t)
    (utterances : list Utterance.t) :
  combine_and_format_results left_results right_results = Return utterances ->
  Forall (fun u => Utterance.speaker u = 0 \/ Utterance.speaker u = 1)
    utterances
  /\ length (filter (fun u => Utterance.speaker u = 0) utterances)
     = length (all_alternatives left_results)
  /\ length (filter (fun u => Utterance.speaker u = 1) utterances)
     = length (all_alternatives right_results).
Proof.
  intros Hus.
  destruct (extract_both _ _ _ Hus) as (l & r & Hl & Hr & ->).
  destruct (extract_transcript_inv _ _ _ Hl) as [_ HFl].
  destruct (extract_transcript_inv _ _ _ Hr) as [_ HFr].
  pose proof (entry_of_speaker _ _ _ HFl) as Hl0.
  pose proof (entry_of_speaker _ _ _ HFr) as Hr1.
  destruct (combined_results_channel l r 0 1 ltac:(done) Hl0 Hr1) as [H0 H1].
  split; [|split].
  - rewrite format_results_perm. apply Forall_fmap, Forall_app. split.
    + eapply Forall_impl; [exact Hl0|]. intros e He. by left.
    + eapply Forall_impl; [exact Hr1|]. intros e He. by right.
  - rewrite format_results_channel, H0, length_fmap.
    rewrite (Permutation_length (sort_by_perm Entry.start_time l)).
    symmetry. by eapply Forall2_length.
  - rewrite format_results_channel, H1, length_fmap.
    rewrite (Permutation_length (sort_by_perm Entry.start_time r)).
    symmetry. by eapply Forall2_length.
Qed.

Lemma utterance_speakers_witness :
  Forall (fun u => Utterance.speaker u = 0 \/ Utterance.speaker u = 1)
    [Utterance.Build 500 1 (py "Hi"); Utterance.Build 1000 0 (py "Hello")]
  /\ length (filter (fun u => Utterance.speaker u = 0)
               [Utterance.Build 500 1 (py "Hi");
                Utterance.Build 1000 0 (py "Hello")])
     = length (all_alternatives [segment "Hello" 1000])
  /\ length (filter (fun u => Utterance.speaker u = 1)
               [Utterance.Build 500 1 (py "Hi");
                Utterance.Build 1000 0 (py "Hello")])
     = length (all_alternatives [segment "Hi" 500]).
Proof.
  apply (utterance_speakers [segment "Hello" 1000] [segment "Hi" 500]).
  reflexivity.
Defined.

(** * The rendered dialogue *)

Lemma py_String a s : py (String a s) = N_of_ascii a :: py s.
Proof. reflexivity. Qed.

Lemma py_inj s1 s2 : py s1 = py s2 -> s1 = s2.
Proof.
  revert s2. induction s1 as [|a s1 IH]; intros [|b s2]; try done.
  rewrite !py_String. intros [= Hab Hs]. f_equal; [|by apply IH].
  by rewrite <- (ascii_N_embedding a), <- (ascii_N_embedding b), Hab.
Qed.

Ltac char_is_sign_or_digit :=
  match goal with
  | |- sign_or_digit ?c =>
      let v := eval vm_compute in c in
      change c with v; unfold sign_or_digit; lia
  end.

Lemma uint_digits d :
  Forall sign_or_digit (py (NilEmpty.string_of_uint d)).
Proof.
  induction d; simpl NilEmpty.string_of_uint; [constructor|..];
    rewrite py_String; (constructor; [char_is_sign_or_digit | done]).
Qed.

Lemma str_of_int_chars z : Forall sign_or_digit (str_of_int z).
Proof.
  assert (forall d, Forall sign_or_digit (py (NilZero.string_of_uint d))) as Hu.
  { intros d. destruct d; try apply uint_digits.
    simpl. rewrite py_String. constructor; [char_is_sign_or_digit|constructor]. }
  unfold str_of_int. destruct (Z.to_int z) as [d|d]; simpl.
  - apply Hu.
  - rewrite py_String. constructor; [char_is_sign_or_digit | apply Hu].
Qed.

Lemma str_of_int_inj z1 z2 : str_of_int z1 = str_of_int z2 -> z1 = z2.
Proof.
  unfold str_of_int. intros H%py_inj.
  assert (forall z, Z.to_int z <> Decimal.Pos Decimal.Nil
                    /\ Z.to_int z <> Decimal.Neg Decimal.Nil) as Hnn.
  { intros [|p|p]; simpl; split; try done; intros [= Hp];
      by apply Unsigned.to_uint_nonnil in Hp. }
  apply DecimalZ.to_int_inj.
  destruct (Hnn z1) as [H1 H1'], (Hnn z2) as [H2 H2'].
  pose proof (NilZero.isi _ H1 H1') as E1.
  pose proof (NilZero.isi _ H2 H2') as E2.
  rewrite H in E1. congruence.
Qed.

Lemma str_of_int_nonempty z : str_of_int z <> [].
Proof.
  unfold str_of_int.
  destruct (Z.to_int z) as [[]|[]]; simpl; try rewrite py_String; done.
Qed.

(** Two texts cut at the first occurrence of a character agree part by
    part. *)
Lemma split_at_first {A} (sep : A) (a1 a2 b1 b2 : list A) :
  sep ∉ a1 -> sep ∉ a2 ->
  a1 ++ sep :: b1 = a2 ++ sep :: b2 -> a1 = a2 /\ b1 = b2.
Proof.
  revert a2. induction a1 as [|x a1 IH]; intros [|y a2] H1 H2 Heq;
    simpl in Heq.
  - by injection Heq as ->.
  - injection Heq as <- _. exfalso. apply H2. left.
  - injection Heq as -> _. exfalso. apply H1. left.
  - injection Heq as -> Heq.
    destruct (IH a2) as [-> ->]; [| |done|done].
    + intros Hin. apply H1. by right.
    + intros Hin. apply H2. by right.
Qed.

Lemma sign_or_digit_not_in c z :
  ~ sign_or_digit c -> c ∉ str_of_int z.
Proof.
  intros Hc Hin. pose proof (str_of_int_chars z) as Hall.
  rewrite Forall_forall in Hall. by apply Hc, Hall.
Qed.

Lemma format_utterance_inj (u1 u2 : Utterance.t) :
  format_utterance u1 = format_utterance u2 -> u1 = u2.
Proof.
  destruct u1 as [t1 s1 w1], u2 as [t2 s2 w2].
  unfold format_utterance. simpl.
  change (py " - ") with [32; 45; 32]%N.
  change (py ": ") with [58; 32]%N. simpl.
  intros Heq.
  apply (split_at_first 32%N) in Heq as [Ht Heq].
  2,3: apply sign_or_digit_not_in; unfold sign_or_digit; lia.
  injection Heq as Heq.
  apply (split_at_first 58%N) in Heq as [Hs Heq].
  2,3: apply sign_or_digit_not_in; unfold sign_or_digit; lia.
  injection Heq as ->.
  apply str_of_int_inj in Ht as ->. apply str_of_int_inj in Hs as ->. done.
Qed.

(** X7: the line printed for an utterance determines the utterance, its
    time, its speaker and its spoken words: two different utterances
    never print the same line. *)
Theorem different_utterances_print_differently (u1 u2 : Utterance.t) :
  u1 <> u2 -> format_utterance u1 <> format_utterance u2.
Proof. intros Hne Heq. by apply Hne, format_utterance_inj. Qed.

Lemma different_utterances_print_differently_witness :
  format_utterance (Utterance.Build 11 0 (py "1: a"))
  <> format_utterance (Utterance.Build 1 1 (py "a")).
Proof.
  apply (different_utterances_print_differently
           (Utterance.Build 11 0 (py "1: a")) (Utterance.Build 1 1 (py "a"))).
  discriminate.
Defined.

Lemma format_utterance_one_line u :
  one_line (Utterance.spoken_words u) -> one_line (format_utterance u).
Proof.
  unfold one_line, format_utterance, newline. intros Hw.
  change (py " - ") with [32; 45; 32]%N.
  change (py ": ") with [58; 32]%N.
  rewrite !not_elem_of_app. repeat split; try done.
  - apply sign_or_digit_not_in. unfold sign_or_digit. lia.
  - intros Hin. repeat (apply elem_of_cons in Hin as [Hin|Hin]; [done|]).
    by apply elem_of_nil in Hin.
  - apply sign_or_digit_not_in. unfold sign_or_digit. lia.
  - intros Hin. repeat (apply elem_of_cons in Hin as [Hin|Hin]; [done|]).
    by apply elem_of_nil in Hin.
Qed.

Lemma format_utterance_nonempty u : format_utterance u <> [].
Proof.
  unfold format_utterance. intros H.
  apply app_eq_nil in H as [H _]. by apply str_of_int_nonempty in H.
Qed.

Lemma join_cons_cons (sep : str) p q rest :
  join sep (p :: q :: rest) = p ++ sep ++ join sep (q :: rest).
Proof. reflexivity. Qed.

Lemma join_lines_inj (l1 l2 : list str) :
  Forall (fun p => one_line p /\ p <> []) l1 ->
  Forall (fun p => one_line p /\ p <> []) l2 ->
  join [newline] l1 = join [newline] l2 -> l1 = l2.
Proof.
  intros H1. revert l2.
  induction H1 as [|p l1 [Hp Hpn] H1 IH]; intros l2 H2 Heq.
  - destruct H2 as [|p' l2 [Hp' Hpn'] H2]; [done|].
    destruct l2 as [|q' l2]; simpl in Heq; [by subst|].
    symmetry in Heq. apply app_eq_nil in Heq as [-> _]. done.
  - destruct H2 as [|p' l2 [Hp' Hpn'] H2].
    { destruct l1 as [|q l1]; simpl in Heq; [by subst|].
      apply app_eq_nil in Heq as [-> _]. done. }
    destruct l1 as [|q l1], l2 as [|q' l2].
    + simpl in Heq. by subst.
    + rewrite join_cons_cons in Heq. simpl in Heq. exfalso.
      apply Hp. rewrite Heq. apply elem_of_app. right. left.
    + rewrite join_cons_cons in Heq. simpl in Heq. exfalso.
      apply Hp'. rewrite <- Heq. apply elem_of_app. right. left.
    + rewrite !join_cons_cons in Heq. simpl in Heq.
      apply split_at_first in Heq as [-> Heq]; [|done..].
      f_equal. by apply IH.
Qed.

Lemma format_utterances_inj (us1 us2 : list Utterance.t) :
  format_utterance <$> us1 = format_utterance <$> us2 -> us1 = us2.
Proof.
  revert us2. induction us1 as [|u us1 IH]; intros [|u' us2]; try done.
  rewrite !fmap_cons. intros [= Hu Hus].
  apply format_utterance_inj in Hu as ->. f_equal. by apply IH.
Qed.

Lemma transcript_text_inj (t1 t2 : Transcript.t) :
  Forall (fun u => one_line (Utterance.spoken_words u))
    (Transcript.utterances t1) ->
  Forall (fun u => one_line (Utterance.spoken_words u))
    (Transcript.utterances t2) ->
  transcript_text t1 = transcript_text t2 ->
  Transcript.utterances t1 = Transcript.utterances t2.
Proof.
  intros H1 H2 Heq. unfold transcript_text in Heq.
  apply join_lines_inj in Heq.
  - by apply format_utterances_inj.
  - apply Forall_fmap. eapply Forall_impl; [exact H1|]. intros u Hu.
    split; [by apply format_utterance_one_line
           | apply format_utterance_nonempty].
  - apply Forall_fmap. eapply Forall_impl; [exact H2|]. intros u Hu.
    split; [by apply format_utterance_one_line
           | apply format_utterance_nonempty].
Qed.

(** X8: when no utterance has a line feed inside its spoken words, the
    dialogue text given to the model, one line per utterance,
    determines the sequence of utterances: two transcripts with
    different utterances never give the same text. *)
Theorem different_transcripts_read_differently (t1 t2 : Transcript.t) :
  Forall (fun u => one_line (Utterance.spoken_words u))
    (Transcript.utterances t1) ->
  Forall (fun u => one_line (Utterance.spoken_words u))
    (Transcript.utterances t2) ->
  Transcript.utterances t1 <> Transcript.utterances t2 ->
  transcript_text t1 <> transcript_text t2.
Proof. intros H1 H2 Hne Heq. by apply Hne, transcript_text_inj. Qed.

Lemma different_transcripts_read_differently_witness :
  transcript_text
    (Transcript.Build [Utterance.Build 500 1 (py "Hi");
                       Utterance.Build 1000 0 (py "Hello")] 5000)
  <> transcript_text
       (Transcript.Build [Utterance.Build 500 1 (py "Hi Hello")] 5000).
Proof.
  apply different_transcripts_read_differently.
  - repeat constructor; unfold one_line; simpl; vm_compute;
      intros H; repeat (apply elem_of_cons in H as [H|H]; [done|]);
      by apply elem_of_nil in H.
  - repeat constructor; unfold one_line; simpl; vm_compute;
      intros H; repeat (apply elem_of_cons in H as [H|H]; [done|]);
      by apply elem_of_nil in H.
  - discriminate.
Defined.

(** With a line feed inside the spoken words two transcripts can print
    the same. *)
Example transcript_text_line_feed :
  transcript_text
    (Transcript.Build
       [Utterance.Build 1 0 (py "a" ++ [newline] ++ py "2 - 1: b")] 10)
  = transcript_text
      (Transcript.Build
         [Utterance.Build 1 0 (py "a"); Utterance.Build 2 1 (py "b")] 10).
Proof. reflexivity. Qed.

Example transcript_text_scenario :
  transcript_text
    (Transcript.Build [Utterance.Build 500 1 (py "Hi");
                       Utterance.Build 1000 0 (py "Hello")] 5000)
  = py "500 - 1: Hi" ++ [newline] ++ py "1000 - 0: Hello".
Proof. reflexivity. Qed.

(** * The set-up cell *)

Section EnvironFacts.
Variable getpass : str -> str.

Lemma require_variables_keeps (vars : list str) (environ : gmap str str) k v :
  environ !! k = Some v ->
  require_variables getpass vars environ !! k = Some v.
Proof.
  revert environ. induction vars as [|var vars IH]; intros environ Hk; [done|].
  simpl. apply IH. destruct (environ !! var) eqn:Hvar; [done|].
  rewrite lookup_insert_ne; [done|]. intros ->. congruence.
Qed.

Lemma require_variables_other (vars : list str) (environ : gmap str str) k :
  k ∉ vars -> require_variables getpass vars environ !! k = environ !! k.
Proof.
  revert environ. induction vars as [|var vars IH]; intros environ Hk; [done|].
  apply not_elem_of_cons in Hk as [Hne Hk]. simpl. rewrite IH by done.
  destruct (environ !! var); [done|]. by rewrite lookup_insert_ne.
Qed.

Lemma require_variables_asks (vars : list str) (environ : gmap str str) var :
  var ∈ vars -> environ !! var = None ->
  require_variables getpass vars environ !! var
  = Some (getpass (getpass_prompt var)).
Proof.
  revert environ. induction vars as [|x vars IH]; intros environ Hin Hnone.
  - by apply elem_of_nil in Hin.
  - simpl. destruct (decide (x = var)) as [->|Hne].
    + rewrite Hnone. apply require_variables_keeps, lookup_insert_eq.
    + apply elem_of_cons in Hin as [->|Hin]; [done|].
      apply IH; [done|]. destruct (environ !! x); [done|].
      by rewrite lookup_insert_ne.
Qed.

Lemma require_variables_set (vars : list str) (environ : gmap str str) :
  Forall (fun var => is_Some (environ !! var)) vars ->
  require_variables getpass vars environ = environ.
Proof.
  induction 1 as [|var vars [v Hv] _ IH]; [done|]. simpl. by rewrite Hv.
Qed.

Lemma require_variables_lookup (vars : list str) (environ : gmap str str) var :
  var ∈ vars ->
  require_variables getpass vars environ !! var
  = Some (getenv environ var (getpass (getpass_prompt var))).
Proof.
  intros Hin. unfold getenv. destruct (environ !! var) as [v|] eqn:Hv.
  - by apply require_variables_keeps.
  - by apply require_variables_asks.
Qed.
End EnvironFacts.

Lemma RIVA_not_required : RIVA_SPEECH_API_SERVER ∉ REQUIRED_VARIABLES.
Proof.
  intros Hin. unfold REQUIRED_VARIABLES in Hin.
  repeat (apply elem_of_cons in Hin as [Hin|Hin]; [by vm_compute in Hin|]).
  by apply elem_of_nil in Hin.
Qed.

(** X9: the set-up of the environment changes no variable that is set,
    sets every required variable that is not to what the user types at
    its prompt, sets the Riva server to the default when it is not set,
    and touches no other variable. *)
Theorem setup_environ_lookup (getpass : str -> str) (environ : gmap str str) :
  (forall k v, environ !! k = Some v ->
               setup_environ getpass environ !! k = Some v)
  /\ (forall var, var ∈ REQUIRED_VARIABLES ->
        setup_environ getpass environ !! var
        = Some (getenv environ var (getpass (getpass_prompt var))))
  /\ setup_environ getpass environ !! RIVA_SPEECH_API_SERVER
     = Some (getenv environ RIVA_SPEECH_API_SERVER (py "grpc.nvcf.nvidia.com"))
  /\ (forall k, k ∉ REQUIRED_VARIABLES -> k <> RIVA_SPEECH_API_SERVER ->
        setup_environ getpass environ !! k = environ !! k).
Proof.
  assert (getenv (require_variables getpass REQUIRED_VARIABLES environ)
            RIVA_SPEECH_API_SERVER (py "grpc.nvcf.nvidia.com")
          = getenv environ RIVA_SPEECH_API_SERVER (py "grpc.nvcf.nvidia.com"))
    as Hriva.
  { unfold getenv.
    by rewrite (require_variables_other _ _ _ _ RIVA_not_required). }
  unfold setup_environ. rewrite Hriva. split; [|split; [|split]].
  - intros k v Hk. destruct (decide (RIVA_SPEECH_API_SERVER = k)) as [<-|Hne].
    + rewrite lookup_insert_eq. unfold getenv. by rewrite Hk.
    + rewrite lookup_insert_ne by done. by apply require_variables_keeps.
  - intros var Hin. rewrite lookup_insert_ne.
    + by apply require_variables_lookup.
    + intros <-. by apply RIVA_not_required.
  - apply lookup_insert_eq.
  - intros k Hk Hne. rewrite lookup_insert_ne by done.
    by apply require_variables_other.
Qed.

(** X10: after the set-up the reads of [os.environ] made by the later
    cells raise no [KeyError]: the Riva arguments are built from the
    server and the key that were set, or else from the default server
    and the key typed by the user, and the key for the language model is
    found as well.  Without the set-up a missing server raises
    [KeyError]. *)
Theorem environ_reads_after_setup (getpass : str -> str)
    (environ : gmap str str) :
  riva_auth_args (setup_environ getpass environ)
  = Done (getenv environ RIVA_SPEECH_API_SERVER (py "grpc.nvcf.nvidia.com"),
          [[py "authorization";
            py "Bearer "
            ++ getenv environ (py "NVIDIA_PARAKEET_NIM_API_KEY")
                 (getpass (getpass_prompt (py "NVIDIA_PARAKEET_NIM_API_KEY")))];
           [py "function-id"; py "1598d209-5e27-4d3c-8079-4751568b1081"]])
  /\ llm_api_key (setup_environ getpass environ)
     = Done (getenv environ (py "NVIDIA_LLAMA_NIM_API_KEY")
               (getpass (getpass_prompt (py "NVIDIA_LLAMA_NIM_API_KEY"))))
  /\ (environ !! RIVA_SPEECH_API_SERVER = None ->
      riva_auth_args environ = Raised (KeyError RIVA_SPEECH_API_SERVER)).
Proof.
  destruct (setup_environ_lookup getpass environ) as (_ & Hreq & Hriva & _).
  unfold riva_auth_args, llm_api_key, environ_getitem.
  rewrite Hriva. simpl.
  rewrite !Hreq.
  - split; [done|]. split; [done|]. by intros ->.
  - unfold REQUIRED_VARIABLES. right. left.
  - unfold REQUIRED_VARIABLES. left.
Qed.

(** X11: running the set-up a second time changes nothing and asks the
    user nothing, whatever would be typed. *)
Theorem setup_environ_idempotent (getpass getpass' : str -> str)
    (environ : gmap str str) :
  setup_environ getpass' (setup_environ getpass environ)
  = setup_environ getpass environ.
Proof.
  destruct (setup_environ_lookup getpass environ) as (_ & Hreq & Hriva & _).
  unfold setup_environ at 1.
  rewrite require_variables_set.
  - unfold getenv at 1. rewrite Hriva. by apply insert_id.
  - apply Forall_forall. intros var Hin. rewrite (Hreq var Hin). by eexists.
Qed.

(** ** The choice of the audio file *)

Lemma startswith_spec s prefix :
  startswith s prefix = true <-> exists rest, s = prefix ++ rest.
Proof.
  revert s. induction prefix as [|c prefix IH]; intros s.
  - destruct s; simpl; (split; [intros _; by eexists | done]).
  - destruct s as [|d s]; simpl.
    + split; [done | by intros [rest Hrest]].
    + rewrite andb_true_iff, N.eqb_eq, IH. split.
      * intros [-> [rest ->]]. by exists rest.
      * intros [rest [= -> ->]]. split; [done | by exists rest].
Qed.

Lemma endswith_spec s suffix :
  endswith s suffix = true <-> exists stem, s = stem ++ suffix.
Proof.
  unfold endswith. rewrite startswith_spec. split.
  - intros [rest Hrest]. exists (rev rest).
    apply (f_equal (@rev N)) in Hrest.
    by rewrite rev_involutive, rev_app_distr, rev_involutive in Hrest.
  - intros [stem ->]. exists (rev stem). by rewrite rev_app_distr.
Qed.

Lemma audio_files_head listing f rest :
  audio_files listing = f :: rest ->
  exists before after,
    listing = before ++ f :: after
    /\ endswith f (py ".wav") = true
    /\ Forall (fun g => endswith g (py ".wav") = false) before.
Proof.
  unfold audio_files.
  induction listing as [|g listing IH]; simpl; [done|].
  destruct (endswith g (py ".wav")) eqn:Hg.
  - intros [= -> _]. exists [], listing. split; [done|]. split; [done|].
    constructor.
  - intros (before & after & -> & Hf & Hb)%IH.
    exists (g :: before), after. split; [done|]. split; [done|].
    by constructor.
Qed.

(** X12: the audio file chosen is the first entry of the listing whose
    name ends with [.wav]; an exception is raised exactly when no entry
    does.  The Result of the chosen file is written under [results/],
    its name keeping the [.wav] before [.json], and two different audio
    files are never written to the same path. *)
Theorem AUDIO_FILE_first_wav (listing : list str) :
  (forall f,
     AUDIO_FILE listing = Done f
     <-> exists before after stem,
           listing = before ++ f :: after
           /\ f = stem ++ py ".wav"
           /\ Forall (fun g => forall stem', g <> stem' ++ py ".wav") before)
  /\ (AUDIO_FILE listing
      = Raised (Exception (py "No .wav files found in the current directory."))
      <-> Forall (fun g => forall stem, g <> stem ++ py ".wav") listing)
  /\ (forall f, AUDIO_FILE listing = Done f ->
        exists stem, result_path f = py "results/" ++ stem ++ py ".wav.json")
  /\ (forall f g, result_path f = result_path g -> f = g).
Proof.
  assert (forall g, endswith g (py ".wav") = false
                    <-> forall stem, g <> stem ++ py ".wav") as Hno.
  { intros g. rewrite <- not_true_iff_false, endswith_spec. split.
    - intros Hn stem ->. apply Hn. by exists stem.
    - intros Hn [stem ->]. by apply (Hn stem). }
  assert (forall l, audio_files l = []
                    <-> Forall (fun g => forall stem, g <> stem ++ py ".wav") l)
    as Hnil.
  { intros l. unfold audio_files. induction l as [|g l IH]; simpl.
    - split; [constructor | done].
    - rewrite Forall_cons, <- IH, <- Hno.
      destruct (endswith g (py ".wav")); split; try done.
      + by intros [? _].
      + by intros [_ ?]. }
  assert (forall f,
            AUDIO_FILE listing = Done f
            <-> exists before after stem,
                  listing = before ++ f :: after
                  /\ f = stem ++ py ".wav"
                  /\ Forall (fun g => forall stem', g <> stem' ++ py ".wav")
                       before) as Hdone.
  { intros f. unfold AUDIO_FILE. split.
    - destruct (audio_files listing) as [|f' rest] eqn:Hfiles; [done|].
      intros [= ->].
      destruct (audio_files_head _ _ _ Hfiles)
        as (before & after & -> & [stem ->]%endswith_spec & Hb).
      exists before, after, stem. split; [done|]. split; [done|].
      eapply Forall_impl; [exact Hb|]. intros g. apply Hno.
    - intros (before & after & stem & -> & -> & Hb).
      unfold audio_files. rewrite List.filter_app.
      assert (List.filter (fun f => endswith f (py ".wav")) before = []) as ->.
      { apply Hnil, Hb. }
      simpl.
      assert (endswith (stem ++ py ".wav") (py ".wav") = true) as ->; [|done].
      apply endswith_spec. by exists stem. }
  split; [exact Hdone|]. split; [|split].
  - rewrite <- Hnil. unfold AUDIO_FILE.
    destruct (audio_files listing); split; done.
  - intros f (before & after & stem & _ & -> & _)%Hdone.
    exists stem. unfold result_path. by rewrite <- !app_assoc.
  - intros f g. unfold result_path.
    intros Heq%app_inv_head%app_inv_tail. done.
Qed.

Example AUDIO_FILE_case_sensitive :
  AUDIO_FILE [py "notes.txt"; py "CALL.WAV"; py "call_b.wav"; py "call_a.wav"]
  = Done (py "call_b.wav")
  /\ AUDIO_FILE [py "notes.txt"; py "CALL.WAV"]
     = Raised (Exception (py "No .wav files found in the current directory.")).
Proof. split; reflexivity. Qed.

(** * Further properties of the schemas *)

Lemma str_eqb_eq s t : str_eqb s t = true <-> s = t.
Proof.
  revert t. induction s as [|c s IH]; intros [|d t]; simpl; try done.
  rewrite andb_true_iff, N.eqb_eq, IH. split.
  - by intros [-> ->].
  - by intros [= -> ->].
Qed.

Lemma str_eqb_neq s t : s <> t -> str_eqb s t = false.
Proof.
  intros Hne. apply not_true_iff_false. by rewrite str_eqb_eq.
Qed.

(** A member under another key does not change what is found under
    [name]. *)
Lemma dict_get_other name k v m1 m2 :
  name <> k -> dict_get name (m1 ++ (k, v) :: m2) = dict_get name (m1 ++ m2).
Proof.
  intros Hne. induction m1 as [|[k' v'] m1 IH]; simpl.
  - destruct (dict_get name m2); [done|]. by rewrite str_eqb_neq.
  - by rewrite IH.
Qed.

Lemma field_ext {A} (validate : json -> validated A) name m1 m2 :
  dict_get name m1 = dict_get name m2 ->
  field validate name m1 = field validate name m2.
Proof. unfold field. by intros ->. Qed.

Lemma at_loc_reports {A} item (r : validated A) loc ty :
  reports r (loc, ty) -> reports (at_loc item r) (item :: loc, ty).
Proof.
  destruct r as [a|errors]; [done|]. simpl. intros Hin.
  apply list_elem_of_fmap. by exists (loc, ty).
Qed.

Lemma field_reports {A} (validate : json -> validated A) name members v loc ty :
  dict_get name members = Some v ->
  reports (validate v) (loc, ty) ->
  reports (field validate name members) (Field name :: loc, ty).
Proof. intros Hget Hv. unfold field. rewrite Hget. by apply at_loc_reports. Qed.

Lemma validate_model_not_object {A}
    (fields : list (str * json) -> validated A) v :
  (forall ms, v <> JObj ms) ->
  reports (validate_model fields v) ([], ModelType).
Proof.
  intros Hv. destruct v; simpl; try by left. by destruct (Hv members).
Qed.

Section ValidationFacts.
Variable lax_int : json -> option Z.

(** Validation looks at the declared fields only. *)
Lemma validate_Evaluation_ext m1 m2 :
  (forall name, name ∈ Evaluation_fields ->
                dict_get name m1 = dict_get name m2) ->
  validate_Evaluation lax_int (JObj m1) = validate_Evaluation lax_int (JObj m2).
Proof.
  intros Hext. unfold validate_Evaluation, validate_model.
  repeat (rewrite (field_ext _ _ m1 m2)
            by (apply Hext; unfold Evaluation_fields; repeat first [by left | right])).
  done.
Qed.

Lemma validate_Entities_ext m1 m2 :
  (forall name, name ∈ Entities_fields ->
                dict_get name m1 = dict_get name m2) ->
  validate_Entities lax_int (JObj m1) = validate_Entities lax_int (JObj m2).
Proof.
  intros Hext. unfold validate_Entities, validate_model.
  repeat (rewrite (field_ext _ _ m1 m2)
            by (apply Hext; unfold Entities_fields; repeat first [by left | right])).
  done.
Qed.

Lemma validate_Result_ext m1 m2 :
  (forall name, name ∈ Result_fields ->
                dict_get name m1 = dict_get name m2) ->
  validate_Result lax_int (JObj m1) = validate_Result lax_int (JObj m2).
Proof.
  intros Hext. unfold validate_Result, validate_model.
  repeat (rewrite (field_ext _ _ m1 m2)
            by (apply Hext; unfold Result_fields; repeat first [by left | right])).
  done.
Qed.

Lemma validate_items_Valid {A} (validate : json -> validated A) i items us :
  validate_items validate i items = Valid us
  <-> Forall2 (fun v u => validate v = Valid u) items us.
Proof.
  revert i us. induction items as [|v items IH]; intros i us; simpl.
  - split.
    + intros [= <-]. constructor.
    + intros H. by inversion H.
  - specialize (IH (S i)).
    destruct (validate v) as [u|e] eqn:Hv; simpl;
      destruct (validate_items validate (S i) items) as [us'|e']; simpl.
    + split.
      * intros [= <-]. constructor; [done|]. by apply IH.
      * intros H. inversion H as [|? u' ? us'' Hu Hus]; subst.
        rewrite Hv in Hu. injection Hu as <-.
        apply IH in Hus. by injection Hus as <-.
    + split; [done|]. intros H. inversion H as [|? u' ? us'' Hu Hus]; subst.
      by apply IH in Hus.
    + split; [done|]. intros H. inversion H as [|? u' ? us'' Hu Hus]; subst.
      by rewrite Hv in Hu.
    + split; [done|]. intros H. inversion H as [|? u' ? us'' Hu Hus]; subst.
      by rewrite Hv in Hu.
Qed.

Lemma validate_items_reports {A} (validate : json -> validated A)
    n items i v loc ty :
  items !! i = Some v ->
  reports (validate v) (loc, ty) ->
  reports (validate_items validate n items) (Index (n + i) :: loc, ty).
Proof.
  revert n i. induction items as [|w items IH]; intros n i Hi Hv; [done|].
  cbn [validate_items]. destruct i as [|i]; simpl in Hi.
  - injection Hi as ->. apply vap_reports_l, vap_reports_r.
    rewrite Nat.add_0_r. by apply at_loc_reports.
  - apply vap_reports_r. replace (n + S i)%nat with (S n + i)%nat by lia.
    by apply IH.
Qed.
End ValidationFacts.

(** X13: an Entities payload must carry all seven fields, those typed
    [Optional] included: a payload without one of them is rejected with
    a missing-field error, whereas [null] is accepted for the name of
    the agent, the name of the customer and the reason. *)
Theorem Entities_fields_required (lax_int : json -> option Z)
    (members : list (str * json)) (name : str) :
  name ∈ Entities_fields ->
  dict_get name members = None ->
  (exists errors,
     validate_Entities lax_int (JObj members) = Invalid errors
     /\ ([Field name], Missing) ∈ errors)
  /\ forall agent customer topic subtopic,
       validate_Entities lax_int
         (JObj [(py "agent_name", JNull); (py "customer_name", JNull);
                (py "agent_speaker", JInt agent);
                (py "customer_speaker", JInt customer);
                (py "reason", JNull); (py "topic", JStr topic);
                (py "subtopic", JStr subtopic)])
       = Valid (Entities.Build None None agent customer None topic subtopic).
Proof.
  intros Hname Hget. split; [|done].
  apply reports_Invalid.
  unfold validate_Entities, validate_model, Entities_fields in *.
  repeat (apply elem_of_cons in Hname as [->|Hname];
          [repeat first
             [ apply vap_reports_r; by apply field_missing
             | apply vap_reports_l ] |]).
  by apply elem_of_nil in Hname.
Qed.

Lemma Entities_fields_required_witness :
  (exists errors,
     validate_Entities (fun _ => None)
       (JObj [(py "customer_name", JNull); (py "agent_speaker", JInt 0);
              (py "customer_speaker", JInt 1); (py "reason", JNull);
              (py "topic", JStr (py "billing"));
              (py "subtopic", JStr (py "refund"))]) = Invalid errors
     /\ ([Field (py "agent_name")], Missing) ∈ errors)
  /\ forall agent customer topic subtopic,
       validate_Entities (fun _ => None)
         (JObj [(py "agent_name", JNull); (py "customer_name", JNull);
                (py "agent_speaker", JInt agent);
                (py "customer_speaker", JInt customer);
                (py "reason", JNull); (py "topic", JStr topic);
                (py "subtopic", JStr subtopic)])
       = Valid (Entities.Build None None agent customer None topic subtopic).
Proof.
  apply (Entities_fields_required (fun _ => None) _ (py "agent_name")).
  - unfold Entities_fields. left.
  - reflexivity.
Defined.

(** X14: a member whose key is not a field of the schema is ignored,
    wherever it stands in the object: the outcome of validation, value
    or errors, is the one obtained without it.  This holds for
    Evaluation, Entities and Result. *)
Theorem unknown_members_ignored (lax_int : json -> option Z)
    (k : str) (v : json) (m1 m2 : list (str * json)) :
  (k ∉ Evaluation_fields ->
   validate_Evaluation lax_int (JObj (m1 ++ (k, v) :: m2))
   = validate_Evaluation lax_int (JObj (m1 ++ m2)))
  /\ (k ∉ Entities_fields ->
      validate_Entities lax_int (JObj (m1 ++ (k, v) :: m2))
      = validate_Entities lax_int (JObj (m1 ++ m2)))
  /\ (k ∉ Result_fields ->
      validate_Result lax_int (JObj (m1 ++ (k, v) :: m2))
      = validate_Result lax_int (JObj (m1 ++ m2))).
Proof.
  split; [|split]; intros Hk.
  - apply validate_Evaluation_ext. intros name Hname.
    apply dict_get_other. by intros ->.
  - apply validate_Entities_ext. intros name Hname.
    apply dict_get_other. by intros ->.
  - apply validate_Result_ext. intros name Hname.
    apply dict_get_other. by intros ->.
Qed.

Lemma unknown_members_ignored_witness :
  validate_Evaluation (fun _ => None)
    (JObj ([] ++ (py "confidence", JInt 3) :: evaluation_members 1 7))
  = validate_Evaluation (fun _ => None) (JObj ([] ++ evaluation_members 1 7)).
Proof.
  apply (proj1 (unknown_members_ignored (fun _ => None)
                  (py "confidence") (JInt 3) [] (evaluation_members 1 7))).
  unfold Evaluation_fields. intros Hin.
  repeat (apply elem_of_cons in Hin as [Hin|Hin]; [by vm_compute in Hin|]).
  by apply elem_of_nil in Hin.
Defined.

Ltac find_field solve_field :=
  repeat first [ apply vap_reports_r; solve [solve_field]
               | apply vap_reports_l ].

(** X15: in an Evaluation response every metric must be an object: a
    metric given as a bare value (a number, a string, [null], an array)
    makes validation fail, with a model-type error at the metric's
    field. *)
Theorem Evaluation_metric_must_be_object (lax_int : json -> option Z)
    (members : list (str * json)) (name : str) (v : json) :
  name ∈ Evaluation_fields ->
  dict_get name members = Some v ->
  (forall ms, v <> JObj ms) ->
  exists errors,
    validate_Evaluation lax_int (JObj members) = Invalid errors
    /\ ([Field name], ModelType) ∈ errors.
Proof.
  intros Hname Hget Hv. apply reports_Invalid.
  unfold Evaluation_fields in Hname.
    unfold validate_Evaluation, validate_model.
  repeat (apply elem_of_cons in Hname as [->|Hname];
          [find_field ltac:(eapply field_reports; [exact Hget|];
                            by apply validate_model_not_object) |]).
  by apply elem_of_nil in Hname.
Qed.

Lemma Evaluation_metric_must_be_object_witness :
  exists errors,
    validate_Evaluation (fun _ => None)
      (JObj ((py "tone", JInt 1) :: without (py "tone") (evaluation_members 1 7)))
    = Invalid errors
    /\ ([Field (py "tone")], ModelType) ∈ errors.
Proof.
  apply (Evaluation_metric_must_be_object (fun _ => None) _ (py "tone") (JInt 1)).
  - unfold Evaluation_fields. do 5 right. left.
  - reflexivity.
  - discriminate.
Defined.

(** X16: every metric of an Evaluation response needs both its [value]
    and its [justification]: a metric object lacking one of them makes
    validation fail, the missing part being reported under the metric's
    field; and a justification that is not a string is rejected as
    well. *)
Theorem Evaluation_metric_parts_required (lax_int : json -> option Z)
    (members ms : list (str * json)) (name : str) :
  name ∈ Evaluation_fields ->
  dict_get name members = Some (JObj ms) ->
  (forall part, part ∈ [py "value"; py "justification"] ->
     dict_get part ms = None ->
     exists errors,
       validate_Evaluation lax_int (JObj members) = Invalid errors
       /\ ([Field name; Field part], Missing) ∈ errors)
  /\ (forall j, dict_get (py "justification") ms = Some j ->
        (forall s, j <> JStr s) ->
        exists errors,
          validate_Evaluation lax_int (JObj members) = Invalid errors
          /\ ([Field name; Field (py "justification")], StringType) ∈ errors).
Proof.
  intros Hname Hget. split.
  - intros part Hpart Hnone. apply reports_Invalid.
    unfold Evaluation_fields in Hname.
    unfold validate_Evaluation, validate_model.
    repeat (apply elem_of_cons in Hname as [->|Hname];
      [find_field ltac:(
         eapply field_reports; [exact Hget|];
         unfold validate_BoolMetric, validate_ScoreMetric,
           validate_StringMetric, validate_model;
         repeat (apply elem_of_cons in Hpart as [->|Hpart];
           [find_field ltac:(by apply field_missing) |]);
         by apply elem_of_nil in Hpart) |]).
    by apply elem_of_nil in Hname.
  - intros j Hj Hnot. apply reports_Invalid.
    assert (reports (validate_str j) ([], StringType)) as Hstr.
    { destruct j; simpl; try by left. by destruct (Hnot s). }
    unfold Evaluation_fields in Hname.
    unfold validate_Evaluation, validate_model.
    repeat (apply elem_of_cons in Hname as [->|Hname];
      [find_field ltac:(
         eapply field_reports; [exact Hget|];
         unfold validate_BoolMetric, validate_ScoreMetric,
           validate_StringMetric, validate_model;
         apply vap_reports_r; eapply field_reports; [exact Hj|exact Hstr]) |]).
    by apply elem_of_nil in Hname.
Qed.

Lemma Evaluation_metric_parts_required_witness :
  exists errors,
    validate_Evaluation (fun _ => None)
      (JObj ((py "tone", JObj [(py "value", JInt 1)])
             :: without (py "tone") (evaluation_members 1 7)))
    = Invalid errors
    /\ ([Field (py "tone"); Field (py "justification")], Missing) ∈ errors.
Proof.
  apply (proj1 (Evaluation_metric_parts_required (fun _ => None)
                  ((py "tone", JObj [(py "value", JInt 1)])
                   :: without (py "tone") (evaluation_members 1 7))
                  [(py "value", JInt 1)] (py "tone")
                  ltac:(unfold Evaluation_fields; do 5 right; left)
                  ltac:(reflexivity))).
  - right. left.
  - reflexivity.
Defined.

(** X17: a Result document is accepted exactly when it has the three
    members [transcript], [entities] and [evaluation] and each of them
    is accepted by its own schema; the Result is then made of the three
    parsed parts.  A failure of any part is a failure of the whole. *)
Theorem validate_Result_Valid_iff (lax_int : json -> option Z)
    (members : list (str * json)) (r : Result.t) :
  validate_Result lax_int (JObj members) = Valid r
  <-> exists jt je jv,
        dict_get (py "transcript") members = Some jt
        /\ dict_get (py "entities") members = Some je
        /\ dict_get (py "evaluation") members = Some jv
        /\ validate_Transcript lax_int jt = Valid (Result.transcript r)
        /\ validate_Entities lax_int je = Valid (Result.entities r)
        /\ validate_Evaluation lax_int jv = Valid (Result.evaluation r).
Proof.
  unfold validate_Result, validate_model at 1, field. split.
  - destruct (dict_get (py "transcript") members) as [jt|];
      destruct (dict_get (py "entities") members) as [je|];
      destruct (dict_get (py "evaluation") members) as [jv|];
      try destruct (validate_Transcript lax_int jt) as [t|] eqn:Ht;
      try destruct (validate_Entities lax_int je) as [e|] eqn:He;
      try destruct (validate_Evaluation lax_int jv) as [v|] eqn:Hv;
      simpl; intros H; try discriminate H.
    injection H as <-. by exists jt, je, jv.
  - intros (jt & je & jv & -> & -> & -> & -> & -> & ->). simpl.
    by destruct r.
Qed.

(** X18: a Transcript document is accepted exactly when [utterances] is
    an array whose elements are all accepted as Utterances and
    [call_duration] is accepted as an integer; the utterances are then
    the parsed elements, in the order of the array.  An element that is
    rejected is reported at its index. *)
Theorem validate_Transcript_Valid_iff (lax_int : json -> option Z)
    (members : list (str * json)) (t : Transcript.t) :
  (validate_Transcript lax_int (JObj members) = Valid t
   <-> exists items jd,
         dict_get (py "utterances") members = Some (JArr items)
         /\ dict_get (py "call_duration") members = Some jd
         /\ Forall2 (fun v u => validate_Utterance lax_int v = Valid u)
              items (Transcript.utterances t)
         /\ validate_int lax_int jd = Valid (Transcript.call_duration t))
  /\ (forall items i v loc ty,
        dict_get (py "utterances") members = Some (JArr items) ->
        items !! i = Some v ->
        reports (validate_Utterance lax_int v) (loc, ty) ->
        reports (validate_Transcript lax_int (JObj members))
          (Field (py "utterances") :: Index i :: loc, ty)).
Proof.
  split.
  - unfold validate_Transcript, validate_model at 1, field, validate_list.
    split.
    + destruct (dict_get (py "utterances") members) as [ju|];
        destruct (dict_get (py "call_duration") members) as [jd|];
        try destruct ju as [| | | | |items|];
        try destruct (validate_items (validate_Utterance lax_int) 0 items)
          as [us|] eqn:Hus;
        try destruct (validate_int lax_int jd) as [d|] eqn:Hd;
        simpl; intros H; try discriminate H.
      injection H as <-. exists items, jd. simpl.
      split; [done|]. split; [done|]. split; [|done].
      by apply (validate_items_Valid (validate_Utterance lax_int) 0).
    + intros (items & jd & -> & -> & HF & Hjd).
      apply (validate_items_Valid (validate_Utterance lax_int) 0) in HF.
      rewrite HF, Hjd. simpl. by destruct t.
  - intros items i v loc ty Hget Hi Hv.
    unfold validate_Transcript, validate_model at 1.
    apply vap_reports_l, vap_reports_r.
    eapply field_reports; [exact Hget|]. simpl.
    by apply (validate_items_reports _ 0 items i v).
Qed.

(** * Facts on the JSON text *)

(** ** White space *)

Lemma skip_ws_line_indent level text :
  skip_ws (line_indent level ++ text) = skip_ws text.
Proof.
  unfold line_indent, newline. generalize (2 * level)%nat as n. intros n.
  change (skip_ws (List.repeat 32%N n ++ text) = skip_ws text).
  induction n as [|n IH]; [done|]. exact IH.
Qed.

Lemma skip_ws_idem text : skip_ws (skip_ws text) = skip_ws text.
Proof.
  induction text as [|c text IH]; [done|]. simpl.
  destruct (is_ws c) eqn:Hc; [done|]. simpl. by rewrite Hc.
Qed.

(** ** Strings *)

Lemma escape_control (c : N) text :
  (c < 32)%N ->
  parse_string_body (escape_char c ++ text)
  = cons_char c (parse_string_body text).
Proof.
  intros Hc. rewrite <- (N2Nat.id c).
  assert (N.to_nat c < 32)%nat as Hn by lia.
  generalize dependent (N.to_nat c). intros n Hn.
  do 32 (destruct n as [|n]; [reflexivity|]). lia.
Qed.

Lemma escape_parse (c : N) text :
  is_scalar c = true ->
  parse_string_body (escape_char c ++ text)
  = cons_char c (parse_string_body text).
Proof.
  intros Hs. destruct (N.lt_ge_cases c 32%N) as [Hlt|Hge].
  { by apply escape_control. }
  destruct (N.eq_dec c 34%N) as [->|H34]; [reflexivity|].
  destruct (N.eq_dec c 92%N) as [->|H92]; [reflexivity|].
  unfold escape_char.
  repeat match goal with
         | |- context [(c =? ?k)%N] =>
             destruct (N.eqb_spec c k); [lia|]
         end.
  destruct (N.ltb_spec c 32%N); [lia|].
  simpl.
  repeat match goal with
         | |- context [(c =? ?k)%N] =>
             destruct (N.eqb_spec c k); [lia|]
         end.
  destruct (N.leb_spec 32%N c); [|lia]. by rewrite Hs.
Qed.

Lemma parse_escaped s rest :
  forallb is_scalar s = true ->
  parse_string_body (List.flat_map escape_char s ++ 34%N :: rest)
  = Some (s, rest).
Proof.
  induction s as [|c s IH]; [done|]. simpl.
  intros [Hc Hs]%andb_true_iff.
  by rewrite <- app_assoc, escape_parse, IH.
Qed.

Lemma render_string_parse s rest :
  forallb is_scalar s = true ->
  exists text,
    render_string s ++ rest = 34%N :: text
    /\ parse_string_body text = Some (s, rest).
Proof.
  intros Hs. exists (List.flat_map escape_char s ++ 34%N :: rest).
  split; [|by apply parse_escaped].
  unfold render_string. simpl. by rewrite <- app_assoc.
Qed.

(** ** Numbers *)

Lemma take_digits_uint (d : Decimal.uint) rest :
  match rest with [] => True | c :: _ => digit_of c = None end ->
  take_digits (py (NilEmpty.string_of_uint d) ++ rest) = (d, rest).
Proof.
  intros Hrest.
  induction d; simpl NilEmpty.string_of_uint;
    [|rewrite py_String; simpl; by rewrite IHd..].
  simpl. destruct rest as [|c rest]; [done|]. simpl. by rewrite Hrest.
Qed.

Lemma nzhead_not_D0 (d d' : Decimal.uint) :
  Decimal.nzhead d <> Decimal.D0 d'.
Proof. induction d; simpl; done. Qed.

Lemma to_uint_integer_part p : integer_part (Pos.to_uint p) = true.
Proof.
  assert (Decimal.unorm (Pos.to_uint p) = Pos.to_uint p) as Hnorm.
  { rewrite <- (Unsigned.to_of (Pos.to_uint p)), Unsigned.of_to. done. }
  pose proof (Unsigned.to_uint_nonnil p) as Hnn.
  destruct (Pos.to_uint p) as [|d| | | | | | | | |]; try done.
  unfold Decimal.unorm in Hnorm. simpl in Hnorm.
  destruct (Decimal.nzhead d) eqn:Hd; try done.
  - by injection Hnorm as <-.
  - exfalso. by eapply nzhead_not_D0.
Qed.

Lemma number_end_digits rest :
  number_end rest -> match rest with [] => True | c :: _ => digit_of c = None end.
Proof. destruct rest; [done|]. by intros [? _]. Qed.

Section ReadingFacts.
Variable read_float : str -> json.

Lemma parse_number_unsigned (d : Decimal.uint) rest (negative : bool) :
  d <> Decimal.Nil ->
  integer_part d = true ->
  number_end rest ->
  parse_number read_float
    ((if negative then [45%N] else [])
     ++ py (NilEmpty.string_of_uint d) ++ rest)
  = if (length ((if negative then [45%N] else [])
                ++ py (NilEmpty.string_of_uint d)) <=? max_int_length)%nat
    then Some (JInt (if negative then - Z.of_uint d else Z.of_uint d), rest)
    else None.
Proof.
  intros Hnn Hint Hend. unfold parse_number.
  assert (exists c text, py (NilEmpty.string_of_uint d) = c :: text
                         /\ (c =? 45)%N = false) as (c & text & Hd & Hc).
  { destruct d; try done; simpl NilEmpty.string_of_uint; rewrite py_String;
      eexists _, _; (split; [reflexivity|reflexivity]). }
  assert (take_digits (py (NilEmpty.string_of_uint d) ++ rest) = (d, rest))
    as Htake by (apply take_digits_uint; by apply number_end_digits).
  assert (parse_fraction rest = Some (false, rest)) as Hfraction.
  { destruct rest as [|c' rest]; [done|]. destruct Hend as (_ & H1 & _).
    unfold parse_fraction. by destruct (N.eqb_spec c' 46%N). }
  assert (parse_exponent rest = Some (false, rest)) as Hexponent.
  { destruct rest as [|c' rest]; [done|]. destruct Hend as (_ & _ & H2 & H3).
    unfold parse_exponent.
    destruct (N.eqb_spec c' 101%N); [done|].
    by destruct (N.eqb_spec c' 69%N). }
  assert (forall sign : str,
            (length (sign ++ py (NilEmpty.string_of_uint d) ++ rest)
             - length rest)%nat
            = length (sign ++ py (NilEmpty.string_of_uint d))) as Hlength
    by (intros sign; rewrite !length_app; lia).
  destruct negative.
  - specialize (Hlength [45%N]). cbn [app] in Hlength |- *.
    change (45 =? 45)%N with true. cbv beta iota.
    rewrite Htake, Hint, Hlength, Hfraction, Hexponent. done.
  - specialize (Hlength []). cbn [app] in Hlength |- *.
    rewrite Hd in Hlength |- *. cbn [app]. rewrite Hc.
    change (c :: text ++ rest) with ((c :: text) ++ rest) in Hlength |- *.
    rewrite <- Hd in Hlength |- *.
    rewrite Htake, Hint, Hlength, Hfraction, Hexponent. done.
Qed.

(** A printed integer is read as that integer when it is short enough,
    and is not read when it is longer. *)
Lemma parse_number_int (z : Z) rest :
  number_end rest ->
  parse_number read_float (str_of_int z ++ rest)
  = if short_int z then Some (JInt z, rest) else None.
Proof.
  intros Hend. unfold short_int, str_of_int.
  destruct z as [|p|p]; simpl Z.to_int.
  - by apply (parse_number_unsigned (Decimal.D0 Decimal.Nil) rest false).
  - assert (NilZero.string_of_int (Decimal.Pos (Pos.to_uint p))
            = NilEmpty.string_of_uint (Pos.to_uint p)) as ->.
    { pose proof (Unsigned.to_uint_nonnil p).
      simpl. by destruct (Pos.to_uint p). }
    pose proof (parse_number_unsigned (Pos.to_uint p) rest false) as Hparse.
    cbn [app] in Hparse. rewrite Hparse;
      [|apply Unsigned.to_uint_nonnil|apply to_uint_integer_part|done].
    unfold Z.of_uint. by rewrite Unsigned.of_to.
  - assert (NilZero.string_of_int (Decimal.Neg (Pos.to_uint p))
            = String "-" (NilEmpty.string_of_uint (Pos.to_uint p))) as ->.
    { pose proof (Unsigned.to_uint_nonnil p).
      simpl. by destruct (Pos.to_uint p). }
    rewrite py_String.
    change (N_of_ascii "-") with 45%N. rewrite <- app_comm_cons.
    pose proof (parse_number_unsigned (Pos.to_uint p) rest true) as Hparse.
    cbn [app] in Hparse. rewrite Hparse;
      [|apply Unsigned.to_uint_nonnil|apply to_uint_integer_part|done].
    unfold Z.of_uint. by rewrite Unsigned.of_to.
Qed.

(** A printed integer starts with a digit or with the minus sign. *)
Lemma str_of_int_head z :
  exists c text, str_of_int z = c :: text /\ sign_or_digit c.
Proof.
  pose proof (str_of_int_chars z) as Hall.
  destruct (str_of_int z) as [|c text] eqn:Hz.
  - by apply str_of_int_nonempty in Hz.
  - exists c, text. split; [done|]. by apply Forall_cons in Hall as [? _].
Qed.

(** ** Documents *)

Lemma json_ind' (P : json -> Prop) :
  P JNull -> (forall b, P (JBool b)) -> (forall z, P (JInt z)) ->
  (forall q, P (JFloat q)) -> (forall s, P (JStr s)) ->
  (forall items, Forall P items -> P (JArr items)) ->
  (forall members, Forall (fun kv => P (snd kv)) members -> P (JObj members)) ->
  forall j, P j.
Proof.
  intros Hnull Hbool Hint Hfloat Hstr Harr Hobj.
  fix IH 1. intros j. destruct j as [|b|z|q|s|items|members].
  - exact Hnull.
  - apply Hbool.
  - apply Hint.
  - apply Hfloat.
  - apply Hstr.
  - apply Harr. induction items as [|x items IHitems]; constructor.
    + apply IH.
    + exact IHitems.
  - apply Hobj. induction members as [|[k v] members IHmembers]; constructor.
    + apply IH.
    + exact IHmembers.
Qed.

Lemma parse_value_S fuel depth text :
  parse_value read_float (S fuel) depth text
  = match skip_ws text with
    | [] => None
    | c :: rest =>
        if (c =? 34)%N then
          match parse_string_body rest with
          | Some (s, rest') => Some (JStr s, rest')
          | None => None
          end
        else if (c =? 91)%N then
          match skip_ws rest with
          | [] => None
          | c' :: rest' =>
              if (c' =? 93)%N then Some (JArr [], rest')
              else
                match depth with
                | O => None
                | S depth' => parse_items read_float fuel depth' rest []
                end
          end
        else if (c =? 123)%N then
          match skip_ws rest with
          | [] => None
          | c' :: rest' =>
              if (c' =? 125)%N then Some (JObj [], rest')
              else
                match depth with
                | O => None
                | S depth' => parse_members read_float fuel depth' rest []
                end
          end
        else if (c =? 110)%N then parse_word (py "null") JNull (c :: rest)
        else if (c =? 116)%N then
          parse_word (py "true") (JBool true) (c :: rest)
        else if (c =? 102)%N then
          parse_word (py "false") (JBool false) (c :: rest)
        else parse_number read_float (c :: rest)
    end.
Proof. reflexivity. Qed.

Lemma parse_items_S fuel depth text acc :
  parse_items read_float (S fuel) depth text acc
  = match parse_value read_float fuel depth text with
    | None => None
    | Some (v, rest) =>
        match skip_ws rest with
        | [] => None
        | c :: rest' =>
            if (c =? 44)%N then
              parse_items read_float fuel depth rest' (acc ++ [v])
            else if (c =? 93)%N then Some (JArr (acc ++ [v]), rest')
            else None
        end
    end.
Proof. reflexivity. Qed.

Lemma parse_members_S fuel depth text acc :
  parse_members read_float (S fuel) depth text acc
  = match skip_ws text with
    | [] => None
    | q :: rest =>
        if (q =? 34)%N then
          match parse_string_body rest with
          | None => None
          | Some (k, rest1) =>
              match skip_ws rest1 with
              | [] => None
              | colon :: rest2 =>
                  if (colon =? 58)%N then
                    match parse_value read_float fuel depth rest2 with
                    | None => None
                    | Some (v, rest3) =>
                        match skip_ws rest3 with
                        | [] => None
                        | c :: rest4 =>
                            if (c =? 44)%N then
                              parse_members read_float fuel depth rest4
                                (acc ++ [(k, v)])
                            else if (c =? 125)%N then
                              Some (JObj (acc ++ [(k, v)]), rest4)
                            else None
                        end
                    end
                  else None
              end
          end
        else None
    end.
Proof. reflexivity. Qed.

(** White space before a value is passed over. *)
Lemma parse_value_skip fuel depth text :
  parse_value read_float fuel depth (skip_ws text)
  = parse_value read_float fuel depth text.
Proof.
  destruct fuel as [|fuel]; [done|].
  by rewrite !parse_value_S, skip_ws_idem.
Qed.

Lemma parse_value_line_indent fuel depth level text :
  parse_value read_float fuel depth (line_indent level ++ text)
  = parse_value read_float fuel depth text.
Proof.
  by rewrite <- parse_value_skip, skip_ws_line_indent, parse_value_skip.
Qed.

Lemma parse_value_space fuel depth text :
  parse_value read_float fuel depth (32%N :: text)
  = parse_value read_float fuel depth text.
Proof.
  rewrite <- parse_value_skip.
  change (skip_ws (32%N :: text)) with (skip_ws text).
  apply parse_value_skip.
Qed.


Ltac decide_chars c :=
  repeat match goal with
         | |- context [(c =? ?k)%N] =>
             destruct (N.eqb_spec c k); [try lia|]
         end.

Lemma value_head_not_ws c : value_head c -> is_ws c = false.
Proof.
  unfold value_head, sign_or_digit, is_ws. intros Hc.
  decide_chars c. done.
Qed.

Lemma skip_ws_value_head c text :
  value_head c -> skip_ws (c :: text) = c :: text.
Proof. intros Hc. simpl. by rewrite value_head_not_ws. Qed.

Lemma render_block_head opening closing level parts :
  exists text, render_block opening closing level parts = opening :: text.
Proof. destruct parts; by eexists. Qed.

Lemma render_head level j :
  printable j = true ->
  exists c text, render level j = c :: text /\ value_head c.
Proof.
  unfold value_head.
  destruct j as [|[]|z|q|s|items|members]; intros Hp; try done.
  - exists 110%N, (py "ull"). split; [done|]. auto.
  - exists 116%N, (py "rue"). split; [done|]. auto.
  - exists 102%N, (py "alse"). split; [done|]. auto.
  - destruct (str_of_int_head z) as (c & text & Hz & Hc).
    exists c, text. split; [done|]. do 6 right. exact Hc.
  - eexists 34%N, _. split; [reflexivity|]. auto.
  - cbn [render].
    destruct (render_block_head 91 93 level
                (List.map (render (S level)) items)) as [text ->].
    eexists _, _. split; [done|]. auto 10.
  - cbn [render].
    destruct (render_block_head 123 125 level
                (List.map (fun kv => render_string (fst kv) ++ [58; 32]%N
                                     ++ render (S level) (snd kv)) members))
      as [text ->].
    eexists _, _. split; [done|]. auto 10.
Qed.

Lemma number_end_line_indent level text :
  number_end (line_indent level ++ text).
Proof. unfold line_indent, newline, number_end. simpl. done. Qed.

Lemma number_end_comma text : number_end (44%N :: text).
Proof. unfold number_end. simpl. done. Qed.

Lemma join_cons_nonempty (sep p : str) (ps : list str) :
  ps <> [] -> join sep (p :: ps) = p ++ sep ++ join sep ps.
Proof. by destruct ps. Qed.

Lemma skip_ws_comma text : skip_ws (44%N :: text) = 44%N :: text.
Proof. reflexivity. Qed.

Lemma skip_ws_close_indent level (closing : N) text :
  is_ws closing = false ->
  skip_ws (line_indent level ++ [closing] ++ text) = closing :: text.
Proof. intros Hc. rewrite skip_ws_line_indent. simpl. by rewrite Hc. Qed.

(** The elements of an array, one per line. *)
Ltac list_length :=
  repeat match goal with
         | H : context [length (_ ++ _)] |- _ => rewrite length_app in H
         | H : context [length (_ :: _)] |- _ =>
             change (length (?a :: ?l)) with (S (length l)) in H
         | |- context [length (_ ++ _)] => rewrite length_app
         | |- context [length (?a :: ?l)] =>
             change (length (a :: l)) with (S (length l))
         end; lia.

Lemma parse_items_render depth level (xs : list json) :
  Forall (round_trips read_float depth) xs -> xs <> [] ->
  forall fuel acc rest,
    (2 * length (line_indent (S level)
                 ++ join ([44%N] ++ line_indent (S level))
                      (List.map (render (S level)) xs)
                 ++ line_indent level ++ [93%N] ++ rest) + 1 < fuel)%nat ->
    parse_items read_float fuel depth
      (line_indent (S level)
       ++ join ([44%N] ++ line_indent (S level))
            (List.map (render (S level)) xs)
       ++ line_indent level ++ [93%N] ++ rest) acc
    = Some (JArr (acc ++ xs), rest).
Proof.
  induction 1 as [|x xs Hx Hxs IH]; [done|]. intros _ fuel acc rest.
  set (tail := line_indent level ++ [93%N] ++ rest).
  intros Hfuel. destruct fuel as [|fuel]; [lia|].
  rewrite parse_items_S, parse_value_line_indent.
  destruct xs as [|y ys].
  - change (join _ (List.map (render (S level)) [x]))
      with (render (S level) x) in *.
    rewrite (Hx (S level) fuel tail).
    + unfold tail. rewrite skip_ws_close_indent by done.
      by change (93 =? 44)%N with false.
    + apply number_end_line_indent.
    + unfold tail in *. list_length.
  - unfold tail in *. clear tail.
    change (List.map (render (S level)) (x :: y :: ys))
      with (render (S level) x :: List.map (render (S level)) (y :: ys))
      in Hfuel |- *.
    rewrite join_cons_nonempty in Hfuel |- * by done.
    rewrite <- !app_assoc in Hfuel |- *.
    change ([44%N] ++ line_indent (S level) ++ ?t)
      with (44%N :: line_indent (S level) ++ t) in Hfuel |- *.
    rewrite (Hx (S level) fuel).
    + rewrite skip_ws_comma. cbv iota. change (44 =? 44)%N with true.
      cbv iota. rewrite (IH ltac:(done) fuel (acc ++ [x]) rest).
      * by rewrite <- app_assoc.
      * list_length.
    + apply number_end_comma.
    + list_length.
Qed.

(** The text of a member: its key, a colon, a space and its value. *)
Lemma parse_member_key (k : str) (text : str) :
  forallb is_scalar k = true ->
  exists body,
    render_string k ++ [58; 32]%N ++ text = 34%N :: body
    /\ parse_string_body body = Some (k, 58%N :: 32%N :: text).
Proof. intros Hk. apply (render_string_parse k (58%N :: 32%N :: text) Hk). Qed.

(** The members of an object, one per line. *)
Lemma parse_members_render depth level (members : list (str * json)) :
  Forall (fun kv => forallb is_scalar (fst kv) = true
                    /\ round_trips read_float depth (snd kv)) members ->
  members <> [] ->
  forall fuel acc rest,
    (2 * length (line_indent (S level)
                 ++ join ([44%N] ++ line_indent (S level))
                      (List.map (fun kv => render_string (fst kv)
                                           ++ [58; 32]%N
                                           ++ render (S level) (snd kv))
                         members)
                 ++ line_indent level ++ [125%N] ++ rest) + 1 < fuel)%nat ->
    parse_members read_float fuel depth
      (line_indent (S level)
       ++ join ([44%N] ++ line_indent (S level))
            (List.map (fun kv => render_string (fst kv)
                                 ++ [58; 32]%N
                                 ++ render (S level) (snd kv))
               members)
       ++ line_indent level ++ [125%N] ++ rest) acc
    = Some (JObj (acc ++ members), rest).
Proof.
  induction 1 as [|[k v] members [Hk Hv] Hmembers IH]; [done|].
  intros _ fuel acc rest Hfuel. simpl fst in *. simpl snd in *.
  destruct fuel as [|fuel]; [lia|].
  rewrite parse_members_S, skip_ws_line_indent.
  set (member := fun kv : str * json =>
                   render_string (fst kv) ++ [58; 32]%N
                   ++ render (S level) (snd kv)) in *.
  destruct members as [|m members].
  - change (join _ (List.map member [(k, v)]))
      with (render_string k ++ [58; 32]%N ++ render (S level) v)
      in Hfuel |- *.
    rewrite <- !app_assoc in Hfuel |- *.
    destruct (parse_member_key k
                (render (S level) v ++ line_indent level ++ [125%N] ++ rest)
                Hk) as (body & Htext & Hbody).
    rewrite Htext.
    change (skip_ws (34%N :: body)) with (34%N :: body). cbv iota.
    change (34 =? 34)%N with true. cbv iota. rewrite Hbody.
    change (skip_ws (58%N :: ?t)) with (58%N :: t). cbv iota.
    change (58 =? 58)%N with true. cbv iota.
    rewrite parse_value_space, (Hv (S level) fuel).
    + rewrite skip_ws_close_indent by done.
      by change (125 =? 44)%N with false.
    + apply number_end_line_indent.
    + unfold render_string in Hfuel. list_length.
  - change (List.map member ((k, v) :: m :: members))
      with ((render_string k ++ [58; 32]%N ++ render (S level) v)
            :: List.map member (m :: members)) in Hfuel |- *.
    rewrite join_cons_nonempty in Hfuel |- * by done.
    rewrite <- !app_assoc in Hfuel |- *.
    change ([44%N] ++ line_indent (S level) ++ ?t)
      with (44%N :: line_indent (S level) ++ t) in Hfuel |- *.
    match goal with
    | |- context [render (S level) v ++ ?t] =>
        destruct (parse_member_key k (render (S level) v ++ t) Hk)
          as (body & Htext & Hbody)
    end.
    rewrite Htext.
    change (skip_ws (34%N :: body)) with (34%N :: body). cbv iota.
    change (34 =? 34)%N with true. cbv iota. rewrite Hbody.
    change (skip_ws (58%N :: ?t)) with (58%N :: t). cbv iota.
    change (58 =? 58)%N with true. cbv iota.
    rewrite parse_value_space, (Hv (S level) fuel).
    + rewrite skip_ws_comma. cbv iota. change (44 =? 44)%N with true.
      cbv iota. rewrite (IH ltac:(done) fuel _ rest).
      * by rewrite <- app_assoc.
      * unfold render_string in Hfuel. list_length.
    + apply number_end_comma.
    + unfold render_string in Hfuel. list_length.
Qed.

(** After its indentation, a block starts with what its first part
    starts with. *)
Lemma skip_ws_block_head (sep p : str) (parts : list str) (tail : str)
    (c : N) (text : str) :
  p = c :: text -> value_head c ->
  exists text', skip_ws (join sep (p :: parts) ++ tail) = c :: text'.
Proof.
  intros -> Hc. destruct parts as [|q parts].
  - exists (text ++ tail). by apply (skip_ws_value_head c (text ++ tail)).
  - exists ((text ++ sep ++ join sep (q :: parts)) ++ tail).
    by apply (skip_ws_value_head c).
Qed.

Lemma render_block_nonempty (opening closing : N) level parts rest :
  parts <> [] ->
  render_block opening closing level parts ++ rest
  = opening :: line_indent (S level)
    ++ join ([44%N] ++ line_indent (S level)) parts
    ++ line_indent level ++ [closing] ++ rest.
Proof.
  destruct parts; [done|]. intros _. unfold render_block.
  by rewrite <- !app_assoc.
Qed.

Lemma fuel_after_opening (n fuel : nat) :
  (2 * S n < S fuel)%nat -> (2 * n + 1 < fuel)%nat.
Proof. lia. Qed.

Lemma value_head_not_closing c :
  value_head c -> (c =? 93)%N = false /\ (c =? 125)%N = false.
Proof.
  unfold value_head, sign_or_digit. intros Hc.
  split; apply N.eqb_neq; lia.
Qed.

Lemma startswith_app (word rest : str) :
  startswith (word ++ rest) word = true.
Proof.
  induction word as [|c word IH]; [by destruct rest|].
  simpl. by rewrite N.eqb_refl.
Qed.

Lemma parse_word_app (word : str) (j : json) (rest : str) :
  parse_word word j (word ++ rest) = Some (j, rest).
Proof.
  unfold parse_word. by rewrite startswith_app, drop_app_length.
Qed.

(** Every document that can be printed and read is read back from its
    text. *)
Lemma printable_round_trips j :
  forall depth,
    printable j = true -> readable depth j = true ->
    round_trips read_float depth j.
Proof.
  induction j as [|b|z|q|s|items IH|members IH] using json_ind';
    intros depth Hp Hr level fuel rest Hend Hfuel;
    (destruct fuel as [|fuel]; [lia|]).
  - rewrite parse_value_S. exact (parse_word_app (py "null") JNull rest).
  - rewrite parse_value_S. destruct b.
    + exact (parse_word_app (py "true") (JBool true) rest).
    + exact (parse_word_app (py "false") (JBool false) rest).
  - cbn [render readable] in *.
    destruct (str_of_int_head z) as (c & text & Hz & Hc).
    rewrite parse_value_S. rewrite Hz. cbn [app].
    rewrite skip_ws_value_head by (unfold value_head; tauto).
    assert (parse_number read_float (c :: text ++ rest) = Some (JInt z, rest))
      as <-.
    { change (c :: text ++ rest) with ((c :: text) ++ rest). rewrite <- Hz.
      by rewrite parse_number_int, Hr. }
    unfold sign_or_digit in Hc. decide_chars c. done.
  - done.
  - cbn [render printable] in *.
    destruct (render_string_parse s rest Hp) as (text & -> & Htext).
    rewrite parse_value_S.
    change (skip_ws (34%N :: text)) with (34%N :: text). cbv iota.
    change (34 =? 34)%N with true. cbv iota. by rewrite Htext.
  - destruct items as [|x xs]; [reflexivity|].
    destruct depth as [|depth]; [done|].
    cbn [render printable readable] in *.
    assert (Forall (round_trips read_float depth) (x :: xs)) as Hitems.
    { apply Forall_forall. intros y Hy.
      rewrite Forall_forall in IH. apply IH; [done|..].
      - rewrite forallb_forall in Hp. apply Hp. by apply list_elem_of_In.
      - rewrite forallb_forall in Hr. apply Hr. by apply list_elem_of_In. }
    assert (printable x = true) as Hx
      by (by apply andb_true_iff in Hp as [? _]).
    destruct (render_head (S level) x Hx) as (c & text & Hc & Hhead).
    rewrite render_block_nonempty in Hfuel |- * by done.
    rewrite parse_value_S.
    change (skip_ws (91%N :: ?t)) with (91%N :: t). cbv iota.
    change (91 =? 34)%N with false. change (91 =? 91)%N with true.
    cbv iota. rewrite skip_ws_line_indent.
    change (List.map (render (S level)) (x :: xs))
      with (render (S level) x :: List.map (render (S level)) xs) at 1.
    match goal with
    | |- context [skip_ws ?t] =>
        assert (exists text', skip_ws t = c :: text') as [text' ->]
          by exact (skip_ws_block_head _ _ _ _ c text Hc Hhead)
    end.
    destruct (value_head_not_closing c Hhead) as [-> _].
    apply (parse_items_render depth level (x :: xs) Hitems ltac:(done)
             fuel [] rest).
    apply fuel_after_opening. exact Hfuel.
  - destruct members as [|[k v] members]; [reflexivity|].
    destruct depth as [|depth]; [done|].
    cbn [render printable readable] in *.
    assert (Forall (fun kv => forallb is_scalar (fst kv) = true
                              /\ round_trips read_float depth (snd kv))
              ((k, v) :: members)) as Hmembers.
    { apply Forall_forall. intros kv Hkv.
      rewrite Forall_forall in IH.
      rewrite forallb_forall in Hp, Hr.
      apply list_elem_of_In in Hkv as Hin.
      specialize (Hp kv Hin). specialize (Hr kv Hin).
      apply andb_true_iff in Hp as [Hkey Hvalue].
      split; [done|]. by apply IH. }
    set (member := fun kv : str * json =>
                     render_string (fst kv) ++ [58; 32]%N
                     ++ render (S level) (snd kv)) in *.
    rewrite render_block_nonempty in Hfuel |- * by done.
    rewrite parse_value_S.
    change (skip_ws (123%N :: ?t)) with (123%N :: t). cbv iota.
    change (123 =? 34)%N with false. change (123 =? 91)%N with false.
    change (123 =? 123)%N with true.
    cbv iota. rewrite skip_ws_line_indent.
    change (List.map member ((k, v) :: members))
      with (member (k, v) :: List.map member members) at 1.
    assert (exists text, member (k, v) = 34%N :: text) as [text Hc]
      by (by eexists).
    assert (value_head 34%N) as Hhead by (unfold value_head; tauto).
    match goal with
    | |- context [skip_ws ?t] =>
        assert (exists text', skip_ws t = 34%N :: text') as [text' ->]
          by exact (skip_ws_block_head _ _ _ _ 34%N text Hc Hhead)
    end.
    change (34 =? 125)%N with false. cbv iota.
    apply (parse_members_render depth level ((k, v) :: members) Hmembers
             ltac:(done) fuel [] rest).
    apply fuel_after_opening. exact Hfuel.
Qed.

(** A whole printed document is read back. *)
Lemma parse_json_render j :
  printable j = true -> readable recursion_limit j = true ->
  parse_json read_float (render 0 j) = Some j.
Proof.
  intros Hp Hr. unfold parse_json.
  pose proof (printable_round_trips j recursion_limit Hp Hr 0%nat
                (S (2 * length (render 0 j))) [] I) as Hparse.
  rewrite app_nil_r in Hparse. rewrite Hparse; [done|lia].
Qed.

(** ** Fuel

    Every reader leaves less text than it is given, so that the fuel
    [parse_json] gives is enough for every text: more of it changes
    nothing. *)

Lemma skip_ws_length text : (length (skip_ws text) <= length text)%nat.
Proof.
  induction text as [|c text IH]; [done|]. simpl.
  destruct (is_ws c); simpl; lia.
Qed.

Lemma skip_ws_cons_length text c rest :
  skip_ws text = c :: rest -> (length rest < length text)%nat.
Proof.
  intros Hskip. pose proof (skip_ws_length text) as Hlength.
  rewrite Hskip in Hlength. simpl in Hlength. lia.
Qed.

Lemma parse_string_body_length_le n :
  forall text s rest,
    (length text <= n)%nat ->
    parse_string_body text = Some (s, rest) ->
    (length rest < length text)%nat.
Proof.
  induction n as [|n IH]; intros text s rest Hn Hparse.
  { destruct text; [done|simpl in Hn; lia]. }
  assert (forall c text' s' rest',
            (length text' <= n)%nat ->
            cons_char c (parse_string_body text') = Some (s', rest') ->
            (length rest' < S (length text'))%nat) as Hcons.
  { intros c text' s' rest' Hn' Hcons.
    destruct (parse_string_body text') as [[s'' rest'']|] eqn:Hbody; [|done].
    injection Hcons as <- <-. apply IH in Hbody; [lia|done]. }
  destruct text as [|c text]; [done|]. simpl in Hn. cbn [parse_string_body] in Hparse.
  repeat (case_match; simplify_eq; cbn [length] in * );
    try (apply Hcons in Hparse; [lia|lia]).
  all: lia.
Qed.

Lemma parse_string_body_length text s rest :
  parse_string_body text = Some (s, rest) -> (length rest < length text)%nat.
Proof. by apply (parse_string_body_length_le (length text)). Qed.

Lemma take_digits_length text d rest :
  take_digits text = (d, rest) ->
  (length rest <= length text)%nat
  /\ (d <> Decimal.Nil -> (length rest < length text)%nat).
Proof.
  revert d rest. induction text as [|c text IH]; intros d rest Htake.
  { by injection Htake as <- <-. }
  cbn [take_digits] in Htake.
  destruct (digit_of c) as [digit|]; [|by injection Htake as <- <-].
  destruct (take_digits text) as [d' rest'].
  injection Htake as <- <-. destruct (IH d' rest' eq_refl) as [Hle _].
  cbn [length]. split; lia.
Qed.

Lemma parse_fraction_length text fraction rest :
  parse_fraction text = Some (fraction, rest) ->
  (length rest <= length text)%nat.
Proof.
  unfold parse_fraction. intros Hparse.
  destruct text as [|c text]; [by injection Hparse as <- <-|].
  destruct (c =? 46)%N; [|by injection Hparse as <- <-].
  destruct (take_digits text) as [f rest'] eqn:Htake.
  apply take_digits_length in Htake as [Hle _].
  destruct (nonempty_digits f); [|done].
  injection Hparse as <- <-. cbn [length]. lia.
Qed.

Lemma parse_exponent_length text exponent rest :
  parse_exponent text = Some (exponent, rest) ->
  (length rest <= length text)%nat.
Proof.
  unfold parse_exponent. intros Hparse.
  destruct text as [|c text]; [by injection Hparse as <- <-|].
  destruct ((c =? 101)%N || (c =? 69)%N); [|by injection Hparse as <- <-].
  destruct (take_digits _) as [e rest'] eqn:Htake.
  apply take_digits_length in Htake as [Hle _].
  destruct (nonempty_digits e); [|done].
  injection Hparse as <- <-. cbn [length].
  destruct text as [|s text]; [simpl in Hle; lia|].
  destruct ((s =? 45)%N || (s =? 43)%N); cbn [length] in *; lia.
Qed.

Lemma startswith_length text word :
  startswith text word = true -> (length word <= length text)%nat.
Proof.
  revert text. induction word as [|c word IH]; intros text Hstarts.
  { simpl. lia. }
  destruct text as [|d text]; [done|]. simpl in Hstarts.
  apply andb_true_iff in Hstarts as [_ Hstarts]. apply IH in Hstarts.
  simpl. lia.
Qed.

Lemma parse_word_length word j text v rest :
  word <> [] ->
  parse_word word j text = Some (v, rest) ->
  (length rest < length text)%nat.
Proof.
  unfold parse_word. intros Hword Hparse.
  destruct (startswith text word) eqn:Hstarts; [|done].
  injection Hparse as <- <-. apply startswith_length in Hstarts.
  rewrite length_drop. destruct word; [done|]. simpl in *. lia.
Qed.

Lemma parse_number_length text v rest :
  parse_number read_float text = Some (v, rest) ->
  (length rest < length text)%nat.
Proof.
  unfold parse_number, parse_nonfinite. intros Hparse.
  destruct (match text with
            | [] => (false, text)
            | c :: rest0 => if (c =? 45)%N then (true, rest0) else (false, text)
            end) as [negative text1] eqn:Hsign.
  assert (length text1 <= length text)%nat as Hle1.
  { destruct text as [|c text]; [by injection Hsign as <- <-|].
    destruct (c =? 45)%N; injection Hsign as <- <-; simpl; lia. }
  destruct (take_digits text1) as [d text2] eqn:Htake.
  apply take_digits_length in Htake as [Hle2 Hlt2].
  destruct (integer_part d) eqn:Hint.
  - assert (length text2 < length text1)%nat as Hlt by (apply Hlt2; by intros ->).
    destruct (_ <=? _)%nat; [|done].
    destruct (parse_fraction text2) as [[fraction text3]|] eqn:Hfraction;
      [|done].
    apply parse_fraction_length in Hfraction.
    destruct (parse_exponent text3) as [[exponent rest']|] eqn:Hexponent;
      [|done].
    apply parse_exponent_length in Hexponent.
    destruct (fraction || exponent); injection Hparse as <- <-; lia.
  - destruct (List.find _ _) as [word|] eqn:Hfind; [|done].
    apply find_some in Hfind as [Hword _].
    apply parse_word_length in Hparse; [done|].
    intros ->. by destruct Hword as [?|[?|[?|[]]]].
Qed.

Lemma parse_value_length fuel :
  forall depth text v rest,
    (parse_value read_float fuel depth text = Some (v, rest) ->
     (length rest < length text)%nat)
    /\ (forall acc,
          parse_items read_float fuel depth text acc = Some (v, rest) ->
          (length rest < length text)%nat)
    /\ (forall acc,
          parse_members read_float fuel depth text acc = Some (v, rest) ->
          (length rest < length text)%nat).
Proof.
  induction fuel as [|fuel IH]; intros depth text v rest; [done|].
  split; [|split].
  - rewrite parse_value_S. intros Hparse.
    destruct (skip_ws text) as [|c text1] eqn:Hskip; [done|].
    apply skip_ws_cons_length in Hskip.
    destruct (c =? 34)%N.
    { destruct (parse_string_body text1) as [[s rest1]|] eqn:Hbody; [|done].
      apply parse_string_body_length in Hbody.
      injection Hparse as <- <-. lia. }
    destruct (c =? 91)%N.
    { destruct (skip_ws text1) as [|c' text2] eqn:Hskip1; [done|].
      apply skip_ws_cons_length in Hskip1.
      destruct (c' =? 93)%N; [injection Hparse as <- <-; lia|].
      destruct depth as [|depth]; [done|].
      apply IH in Hparse. lia. }
    destruct (c =? 123)%N.
    { destruct (skip_ws text1) as [|c' text2] eqn:Hskip1; [done|].
      apply skip_ws_cons_length in Hskip1.
      destruct (c' =? 125)%N; [injection Hparse as <- <-; lia|].
      destruct depth as [|depth]; [done|].
      apply IH in Hparse. lia. }
    assert (length rest < length (c :: text1))%nat; [|simpl in *; lia].
    destruct (c =? 110)%N; [by apply parse_word_length in Hparse|].
    destruct (c =? 116)%N; [by apply parse_word_length in Hparse|].
    destruct (c =? 102)%N; [by apply parse_word_length in Hparse|].
    by apply parse_number_length in Hparse.
  - intros acc. rewrite parse_items_S. intros Hparse.
    destruct (parse_value read_float fuel depth text) as [[v1 rest1]|]
      eqn:Hvalue; [|done].
    apply IH in Hvalue.
    destruct (skip_ws rest1) as [|c rest2] eqn:Hskip; [done|].
    apply skip_ws_cons_length in Hskip.
    destruct (c =? 44)%N; [apply IH in Hparse; lia|].
    destruct (c =? 93)%N; [|done]. injection Hparse as <- <-. lia.
  - intros acc. rewrite parse_members_S. intros Hparse.
    destruct (skip_ws text) as [|q text1] eqn:Hskip; [done|].
    apply skip_ws_cons_length in Hskip.
    destruct (q =? 34)%N; [|done].
    destruct (parse_string_body text1) as [[k text2]|] eqn:Hbody; [|done].
    apply parse_string_body_length in Hbody.
    destruct (skip_ws text2) as [|colon text3] eqn:Hskip2; [done|].
    apply skip_ws_cons_length in Hskip2.
    destruct (colon =? 58)%N; [|done].
    destruct (parse_value read_float fuel depth text3) as [[v1 text4]|]
      eqn:Hvalue; [|done].
    apply IH in Hvalue.
    destruct (skip_ws text4) as [|c text5] eqn:Hskip4; [done|].
    apply skip_ws_cons_length in Hskip4.
    destruct (c =? 44)%N; [apply IH in Hparse; lia|].
    destruct (c =? 125)%N; [|done]. injection Hparse as <- <-. lia.
Qed.

(** With fuel for twice the length of the text, more fuel changes
    nothing. *)
Lemma parse_value_fuel fuel :
  forall fuel' depth text,
    (fuel <= fuel')%nat ->
    ((2 * length text < fuel)%nat ->
     parse_value read_float fuel' depth text
     = parse_value read_float fuel depth text)
    /\ (forall acc,
          (2 * length text + 1 < fuel)%nat ->
          parse_items read_float fuel' depth text acc
          = parse_items read_float fuel depth text acc)
    /\ (forall acc,
          (2 * length text + 1 < fuel)%nat ->
          parse_members read_float fuel' depth text acc
          = parse_members read_float fuel depth text acc).
Proof.
  induction fuel as [|fuel IH]; intros fuel' depth text Hfuel.
  { repeat split; intros; lia. }
  destruct fuel' as [|fuel']; [lia|].
  assert (fuel <= fuel')%nat as Hle by lia.
  split; [|split].
  - intros Hlength. rewrite !parse_value_S.
    destruct (skip_ws text) as [|c text1] eqn:Hskip; [done|].
    apply skip_ws_cons_length in Hskip.
    destruct (c =? 34)%N; [done|].
    destruct (c =? 91)%N.
    { destruct (skip_ws text1) as [|c' text2] eqn:Hskip1; [done|].
      destruct (c' =? 93)%N; [done|].
      destruct depth as [|depth]; [done|].
      apply IH; [done|lia]. }
    destruct (c =? 123)%N; [|done].
    destruct (skip_ws text1) as [|c' text2] eqn:Hskip1; [done|].
    destruct (c' =? 125)%N; [done|].
    destruct depth as [|depth]; [done|].
    apply IH; [done|lia].
  - intros acc Hlength. rewrite !parse_items_S.
    rewrite (proj1 (IH fuel' depth text Hle)) by lia.
    destruct (parse_value read_float fuel depth text) as [[v rest]|]
      eqn:Hvalue; [|done].
    apply parse_value_length in Hvalue.
    destruct (skip_ws rest) as [|c rest1] eqn:Hskip; [done|].
    apply skip_ws_cons_length in Hskip.
    destruct (c =? 44)%N; [|done]. apply IH; [done|lia].
  - intros acc Hlength. rewrite !parse_members_S.
    destruct (skip_ws text) as [|q text1] eqn:Hskip; [done|].
    apply skip_ws_cons_length in Hskip.
    destruct (q =? 34)%N; [|done].
    destruct (parse_string_body text1) as [[k text2]|] eqn:Hbody; [|done].
    apply parse_string_body_length in Hbody.
    destruct (skip_ws text2) as [|colon text3] eqn:Hskip2; [done|].
    apply skip_ws_cons_length in Hskip2.
    destruct (colon =? 58)%N; [|done].
    rewrite (proj1 (IH fuel' depth text3 Hle)) by lia.
    destruct (parse_value read_float fuel depth text3) as [[v text4]|]
      eqn:Hvalue; [|done].
    apply parse_value_length in Hvalue.
    destruct (skip_ws text4) as [|c text5] eqn:Hskip4; [done|].
    apply skip_ws_cons_length in Hskip4.
    destruct (c =? 44)%N; [|done]. apply IH; [done|lia].
Qed.

(** The fuel of [parse_json] is enough for every text. *)
Lemma parse_json_fuel text fuel depth :
  (2 * length text < fuel)%nat ->
  parse_value read_float fuel depth text
  = parse_value read_float (S (2 * length text)) depth text.
Proof.
  intros Hfuel.
  by apply (parse_value_fuel (S (2 * length text)) fuel depth text); lia.
Qed.

End ReadingFacts.

(** ** The document of a Result *)

Ltac literal_keys :=
  repeat match goal with
         | |- context [forallb is_scalar (py ?k)] =>
             change (forallb is_scalar (py k)) with true
         end.

Lemma printable_dump_optional_str o :
  printable (dump_optional_str o) = forallb (forallb is_scalar) (optional_text o).
Proof. destruct o; simpl; by rewrite ?andb_true_r. Qed.

Lemma printable_dump_Utterances us :
  forallb printable (dump_Utterance <$> us)
  = forallb (forallb is_scalar) (Utterance.spoken_words <$> us).
Proof.
  induction us as [|[time speaker words] us IH]; [done|].
  rewrite !fmap_cons. cbn [forallb]. rewrite IH. f_equal.
  unfold dump_Utterance. cbn [printable forallb fst snd Utterance.spoken_words].
  literal_keys. cbn [andb]. by rewrite andb_true_r.
Qed.

(** The document of a Result can be printed when the texts of the
    Result can be encoded, and only then. *)
Lemma printable_dump_Result r : printable (dump_Result r) = encodable r.
Proof.
  destruct r as [[us duration]
                   [agent_name customer_name agent_speaker customer_speaker
                      reason topic subtopic]
                   [[] [] [] [] [] [] [] [] [] [] [] [] []]].
  unfold encodable, Result_texts, metric_texts, dump_Result, dump_Transcript,
    dump_Entities, dump_Evaluation, dump_BoolMetric, dump_ScoreMetric,
    dump_StringMetric.
  cbn [Result.transcript Result.entities Result.evaluation
       Transcript.utterances Transcript.call_duration
       Entities.agent_name Entities.customer_name Entities.agent_speaker
       Entities.customer_speaker Entities.reason Entities.topic
       Entities.subtopic
       Evaluation.greeting Evaluation.hold Evaluation.ticket
       Evaluation.listening Evaluation.understanding Evaluation.tone
       Evaluation.proactivity Evaluation.clarity Evaluation.resolved
       Evaluation.customer_sentiment Evaluation.escalation
       Evaluation.agent_feedback Evaluation.escalation_reason
       BoolMetric.justification ScoreMetric.justification
       StringMetric.value StringMetric.justification].
  rewrite !forallb_app.
  cbn [printable forallb fst snd].
  rewrite printable_dump_Utterances, !printable_dump_optional_str.
  literal_keys. cbn [andb]. rewrite !andb_true_r, <- !andb_assoc. reflexivity.
Qed.

Lemma readable_dump_Utterances depth us :
  forallb (readable (S depth)) (dump_Utterance <$> us)
  = forallb short_int
      (List.flat_map (fun u => [Utterance.time u; Utterance.speaker u]) us).
Proof.
  induction us as [|[time speaker words] us IH]; [done|].
  rewrite fmap_cons. cbn [forallb flat_map app]. rewrite IH.
  unfold dump_Utterance.
  cbn [readable forallb fst snd Utterance.time Utterance.speaker].
  cbn [andb]. by rewrite andb_true_r, <- andb_assoc.
Qed.

Lemma readable_dump_Utterance_list depth us :
  readable (S (S depth)) (JArr (dump_Utterance <$> us))
  = forallb short_int
      (List.flat_map (fun u => [Utterance.time u; Utterance.speaker u]) us).
Proof.
  destruct us as [|u us]; [done|].
  rewrite <- (readable_dump_Utterances depth). by rewrite fmap_cons.
Qed.

(** The document of a Result is nested four deep, and is read back when
    the integers of the Result are short enough. *)
Lemma readable_dump_Result r :
  readable recursion_limit (dump_Result r) = short_ints r.
Proof.
  destruct r as [[us duration]
                   [agent_name customer_name agent_speaker customer_speaker
                      reason topic subtopic]
                   [[] [] [] [] [] [] [] [] [] [] [] [] []]].
  change recursion_limit with (S (S (S (S 196)))).
  unfold short_ints, Result_ints, metric_ints, dump_Result, dump_Transcript,
    dump_Entities, dump_Evaluation, dump_BoolMetric, dump_ScoreMetric,
    dump_StringMetric.
  cbn [Result.transcript Result.entities Result.evaluation
       Transcript.utterances Transcript.call_duration
       Entities.agent_name Entities.customer_name Entities.agent_speaker
       Entities.customer_speaker Entities.reason Entities.topic
       Entities.subtopic
       Evaluation.greeting Evaluation.hold Evaluation.ticket
       Evaluation.listening Evaluation.understanding Evaluation.tone
       Evaluation.proactivity Evaluation.clarity Evaluation.resolved
       Evaluation.customer_sentiment Evaluation.escalation
       Evaluation.agent_feedback Evaluation.escalation_reason
       BoolMetric.value ScoreMetric.value].
  rewrite !forallb_app.
  rewrite <- (readable_dump_Utterance_list 196 us).
  assert (forall o, readable 198 (dump_optional_str o) = true) as Hoptional
    by (by intros []).
  cbn [readable forallb fst snd]. rewrite !Hoptional.
  cbn [andb]. rewrite !andb_true_r, <- !andb_assoc. reflexivity.
Qed.

(** ** Writing a Result and reading it back *)

(** [model_dump_json] returns the text of the Result when every text of
    the Result can be encoded, and raises otherwise. *)
Lemma model_dump_json_encodable r :
  model_dump_json r
  = if encodable r then Serialized (render 0 (dump_Result r))
    else PydanticSerializationError.
Proof. unfold model_dump_json. by rewrite printable_dump_Result. Qed.



